(** * tiny-cacher: a shallow embedding of the cache facade

    The development follows [tiny-cacher.js] (class [TinyCacher]) and the
    schema file of the SQLite backend.  The objects that the class uses as
    dictionaries ([staticStorage], [this.storage]) are finite maps; the
    objects it hands back to the caller are lists of properties in the
    order in which JavaScript enumerates them.  A promise is modelled by
    its outcome together with the state left behind; a date is a number
    of milliseconds since the epoch, and the clock is an argument of the
    methods that read it. *)

From stdpp Require Import base option list gmap strings pretty sorting.
From Stdlib Require Import ZArith Lia.

Local Open Scope Z_scope.
Set Warnings "-register-all".

(** ** JavaScript values *)

(** Numbers are the integral ones: NaN, the infinities and fractions are
    left out of the model. *)
Inductive JSValue : Type :=
| JUndefined
| JNull
| JBool (b : bool)
| JNum (n : Z)
| JStr (s : string)
| JArr (items : list JSValue)
| JObj (props : list (string * JSValue)).

Inductive JSType := TUndefined | TObject | TBoolean | TNumber | TString.

#[global] Instance JSType_eq_dec : EqDecision JSType.
Proof. solve_decision. Defined.

(** [typeof(v)]; note that [typeof(null)] is ['object']. *)
Definition typeof (v : JSValue) : JSType :=
  match v with
  | JUndefined => TUndefined
  | JNull => TObject
  | JBool _ => TBoolean
  | JNum _ => TNumber
  | JStr _ => TString
  | JArr _ => TObject
  | JObj _ => TObject
  end.

(** [v === null] and [v === ''] *)
Definition is_null (v : JSValue) : bool :=
  match v with JNull => true | _ => false end.

Definition is_empty_string (v : JSValue) : bool :=
  match v with JStr s => bool_decide (s = "") | _ => false end.

(** [typeof(key) !== 'string' || key === ''], the guard that opens every
    single-key method and the loops of the multi-key ones. *)
Definition invalid_key (key : JSValue) : bool :=
  negb (bool_decide (typeof key = TString)) || is_empty_string key.

(** The property name a value stands for in [obj[v]].  Only strings reach
    this point in the code below; [null] is the one other case the class
    can produce ([createKey(null)]). *)
Definition property_key (v : JSValue) : string :=
  match v with
  | JStr s => s
  | JNull => "null"
  | JUndefined => "undefined"
  | JBool true => "true"
  | JBool false => "false"
  | JNum n => pretty n
  | JArr _ | JObj _ => "[object Object]"
  end.

(** ** Promises *)

(** What a promise is rejected with: one of the messages of the class, or
    the exception that escaped the executor ([Thrown]: one raised by a
    collaborator outside every [try]). *)
Inductive Reason :=
| Message (s : string)
| TypeError
| ReferenceError
| Thrown.

Inductive Outcome (A : Type) :=
| Resolved (a : A)
| Rejected (r : Reason).
Arguments Resolved {A} a.
Arguments Rejected {A} r.

(** [Promise.all]: the values in the order of the requests, or the reason
    of the first request (in that order) that is rejected.  All requests
    of this model are settled when they are joined. *)
Fixpoint Promise_all {A} (requests : list (Outcome A)) : Outcome (list A) :=
  match requests with
  | [] => Resolved []
  | Rejected r :: _ => Rejected r
  | Resolved a :: rest =>
      match Promise_all rest with
      | Resolved l => Resolved (a :: l)
      | Rejected r => Rejected r
      end
  end.

(** ** Entries of the in-memory storages *)

(** The [expire] property of a stored element: [undefined], [null] or a
    [Date] (milliseconds since the epoch). *)
Inductive Expire :=
| ExpUndefined
| ExpNull
| ExpDate (t : Z).

Record Entry := mkEntry { value : JSValue; expire : Expire }.

(** [typeof(e.expire)] *)
Definition typeof_expire (e : Expire) : JSType :=
  match e with
  | ExpUndefined => TUndefined
  | ExpNull => TObject
  | ExpDate _ => TObject
  end.

(** [!e.expire instanceof Date] parses as [(!e.expire) instanceof Date]:
    the negation gives a boolean, and a boolean is no instance of [Date]. *)
Definition not_expire_instanceof_Date (e : Expire) : bool := false.

(** [e.expire instanceof Date] *)
Definition expire_instanceof_Date (e : Expire) : bool :=
  match e with ExpDate _ => true | _ => false end.

(** [e.expire !== null] *)
Definition expire_not_null (e : Expire) : bool :=
  match e with ExpNull => false | _ => true end.

(** [e.expire >= d] and [e.expire < d] with a [Date] [d]: both sides are
    turned into numbers, [null] into 0 and [undefined] into NaN, which
    compares false. *)
Definition expire_ge (e : Expire) (d : Z) : bool :=
  match e with
  | ExpUndefined => false
  | ExpNull => 0 >=? d
  | ExpDate t => t >=? d
  end.

Definition expire_lt (e : Expire) (d : Z) : bool :=
  match e with
  | ExpUndefined => false
  | ExpNull => 0 <? d
  | ExpDate t => t <? d
  end.

(** A storage object: namespace hash, then key hash, then the element. *)
Abbreviation Bucket := (gmap string Entry).
Abbreviation Storage := (gmap string (gmap string Entry)).

(** ** The Local and Shared backends

    The branches [case TinyCacher.STRATEGY_SHARED] and [default] of every
    method are the same code, on [staticStorage] and on [this.storage]: the
    functions below are that code, over the storage object it addresses.
    They return [None] where the code throws a [TypeError] (a property read
    on [undefined]). *)

(** The test of [push] on an element that is already there:
    [typeof(e.expire) !== 'object' || !e.expire instanceof Date ||
     e.expire >= currentDate]. *)
Definition already_exists (e : Entry) (currentDate : Z) : bool :=
  negb (bool_decide (typeof_expire (expire e) = TObject))
  || not_expire_instanceof_Date (expire e)
  || expire_ge (expire e) currentDate.

Definition storage_push (currentDate : Z) (ns k : string) (v : JSValue)
    (overwrite : bool) (exp : Expire) (st : Storage) : Outcome unit * Storage :=
  let element := {| value := v; expire := exp |} in
  match st !! ns with
  | None =>
      (* storage[ns] = {}; storage[ns][k] = element *)
      (Resolved tt, <[ns := <[k := element]> ∅]> st)
  | Some bucket =>
      match bucket !! k with
      | Some e =>
          if negb overwrite && already_exists e currentDate
          then (Rejected (Message "This key already exists."), st)
          else (Resolved tt, <[ns := <[k := element]> bucket]> st)
      | None => (Resolved tt, <[ns := <[k := element]> bucket]> st)
      end
  end.

(** What a read that found nothing gives back:
    [quiet === true ? resolve(null) : reject(message)]. *)
Definition not_found (quiet : bool) (message : string) : Outcome JSValue :=
  if quiet then Resolved JNull else Rejected (Message message).

(** The guard of [pull] and [has] around the expiry test:
    [typeof(e.expire) === 'undefined' ||
     ( !e.expire instanceof Date && e.expire !== null )]. *)
Definition expire_suspicious (e : Entry) : bool :=
  bool_decide (typeof_expire (expire e) = TUndefined)
  || (not_expire_instanceof_Date (expire e) && expire_not_null (expire e)).

Definition storage_pull (currentDate : Z) (ns k : string) (quiet : bool)
    (st : Storage) : option (Outcome JSValue * Storage) :=
  match st !! ns with
  | None => None
  | Some bucket =>
      match bucket !! k with
      | Some e =>
          if negb (bool_decide (typeof (value e) = TUndefined)) then
            if expire_suspicious e then
              if expire_not_null (expire e) && expire_lt (expire e) currentDate
              then Some (not_found quiet "Element has expired.",
                         <[ns := delete k bucket]> st)
              else Some (not_found quiet "Malformed element.", st)
            else Some (Resolved (value e), st)
          else Some (not_found quiet "No such element found.", st)
      | None => Some (not_found quiet "No such element found.", st)
      end
  end.

(** [has] repeats the tests of [pull], but never declares [currentDate]:
    reading it throws a [ReferenceError], which rejects the promise. *)
Definition storage_has (ns k : string) (st : Storage) : option (Outcome bool) :=
  match st !! ns with
  | None => None
  | Some bucket =>
      match bucket !! k with
      | Some e =>
          if negb (bool_decide (typeof (value e) = TUndefined)) then
            if expire_suspicious e then
              if expire_not_null (expire e)
              then Some (Rejected ReferenceError)
              else Some (Resolved false)
            else Some (Resolved true)
          else Some (Resolved false)
      | None => Some (Resolved false)
      end
  end.

Definition storage_remove (ns k : string) (st : Storage) : option Storage :=
  match st !! ns with
  | None => None
  | Some bucket =>
      match bucket !! k with
      | Some _ => Some (<[ns := delete k bucket]> st)
      | None => Some st
      end
  end.

(** [element.value += delta] when [typeof(element.value) === 'number']. *)
Definition add_to_value (delta : Z) (e : Entry) : Entry :=
  match value e with
  | JNum n => {| value := JNum (n + delta); expire := expire e |}
  | _ => e
  end.

Definition storage_increment (ns k : string) (delta : Z) (st : Storage) : Storage :=
  match st !! ns with
  | None => st
  | Some bucket =>
      match bucket !! k with
      | Some e => <[ns := <[k := add_to_value delta e]> bucket]> st
      | None => st
      end
  end.

(** *** The garbage collector of the in-memory storages

    [runGlobalGarbageCollector] and [runGarbageCollector]: the two nested
    [for ... in] loops delete every element for which
    [typeof(expire) === 'object' && expire !== null &&
     expire instanceof Date && expire < now]. *)
Definition collectable (now : Z) (e : Entry) : bool :=
  bool_decide (typeof_expire (expire e) = TObject)
  && expire_not_null (expire e)
  && expire_instanceof_Date (expire e)
  && expire_lt (expire e) now.

Definition sweep_bucket (now : Z) (bucket : Bucket) : Bucket :=
  filter (λ kv, collectable now kv.2 = false) bucket.

Definition sweep (now : Z) (st : Storage) : Storage :=
  sweep_bucket now <$> st.

(** ** Objects handed to and by the caller

    The own properties of an object, in the order in which [for ... in],
    [Object.keys] and [JSON.stringify] go through them: the names that are
    array indices first, ascending, then the other names in the order of
    their creation. *)
Abbreviation Props := (list (string * JSValue)).

(** An array index is the canonical decimal text of an integer below
    [2^32 - 1]. *)
Definition digit (c : Ascii.ascii) : option N :=
  let n := Ascii.N_of_ascii c in
  if ((48 <=? n) && (n <=? 57))%N then Some (n - 48)%N else None.

Fixpoint parse_digits (acc : N) (s : string) : option N :=
  match s with
  | EmptyString => Some acc
  | String c rest =>
      match digit c with
      | Some d => parse_digits (10 * acc + d)%N rest
      | None => None
      end
  end.

Definition array_index (s : string) : option N :=
  match s with
  | EmptyString => None
  | String c rest =>
      (* a leading zero *)
      if bool_decide (Ascii.N_of_ascii c = 48%N) && negb (bool_decide (rest = "")) then None
      else
        match parse_digits 0 s with
        | Some n => if (n <? 2 ^ 32 - 1)%N then Some n else None
        | None => None
        end
  end.

Definition is_array_index (s : string) : bool :=
  match array_index s with Some _ => true | None => false end.

(** A new property named by the array index [n]: behind the indices
    below [n], before everything else. *)
Fixpoint insert_index (n : N) (k : string) (v : JSValue) (data : Props) : Props :=
  match data with
  | [] => [(k, v)]
  | p :: rest =>
      match array_index p.1 with
      | Some m => if (m <? n)%N then p :: insert_index n k v rest else (k, v) :: data
      | None => (k, v) :: data
      end
  end.

(** [data[k] = v] on an object literal.  ['__proto__'] is the accessor
    of [Object.prototype]: assigning to it changes the prototype (or does
    nothing) and creates no property. *)
Definition object_set (data : Props) (k : string) (v : JSValue) : Props :=
  if bool_decide (k = "__proto__") then data
  else if bool_decide (k ∈ data.*1)
  then (λ p, if bool_decide (p.1 = k) then (k, v) else p) <$> data
  else
    match array_index k with
    | Some n => insert_index n k v data
    | None => data ++ [(k, v)]
    end.

Definition object_get (data : Props) (k : string) : option JSValue :=
  snd <$> find (λ p, bool_decide (p.1 = k)) data.

(** [for ( let key in elements )] with [elements[key]], for the values
    that pass [typeof(elements) === 'object' && elements !== null]. *)
Definition for_in (elements : JSValue) : Props :=
  match elements with
  | JArr items => imap (λ i v, (pretty i, v)) items
  | JObj props => props
  | _ => []
  end.

(** ** The SQLite3 backend

    The table of the schema file:
    [cache_storage (namespace TEXT, key TEXT, value TEXT, numeric INTEGER,
     date DATETIME, expire DATETIME, PRIMARY KEY (namespace, key))].
    [DATETIME] values are texts of the fixed shape [YYYY-MM-DD HH:MM:SS],
    whose order as texts is their order in time: they are kept as seconds
    since the epoch.  A column that holds [NULL] is [None]. *)
Record Row := mkRow {
  col_namespace : string;
  col_key : string;
  col_value : string;
  col_numeric : Z;
  col_date : Z;
  col_expire : option Z
}.

(** [expire.toISOString().slice(0, 19)] and [DATETIME("now")]: the date
    cut down to whole seconds. *)
Definition datetime (ms : Z) : Z := ms / 1000.

(** The conditions the class writes after [WHERE]. *)
Inductive SqlExpr :=
| NamespaceEq (p : string)        (* namespace = ? *)
| KeyEq (p : string)              (* key = ? *)
| NumericEq (n : Z)               (* numeric = 1 *)
| ExpireEqNull                    (* expire = NULL *)
| ExpireGeNow                     (* expire >= DATETIME("now") *)
| ExpireLtNow                     (* expire < DATETIME("now") *)
| SqlAnd (a b : SqlExpr)
| SqlOr (a b : SqlExpr).

(** SQL has three truth values; [None] is [NULL] (unknown). *)
Definition sql_and (a b : option bool) : option bool :=
  match a, b with
  | Some false, _ | _, Some false => Some false
  | Some true, Some true => Some true
  | _, _ => None
  end.

Definition sql_or (a b : option bool) : option bool :=
  match a, b with
  | Some true, _ | _, Some true => Some true
  | Some false, Some false => Some false
  | _, _ => None
  end.

(** A comparison with an operand that is [NULL] is [NULL]: so is
    [expire = NULL], whatever the column holds. *)
Fixpoint sql_eval (now : Z) (r : Row) (e : SqlExpr) : option bool :=
  match e with
  | NamespaceEq p => Some (bool_decide (col_namespace r = p))
  | KeyEq p => Some (bool_decide (col_key r = p))
  | NumericEq n => Some (bool_decide (col_numeric r = n))
  | ExpireEqNull => None
  | ExpireGeNow => (λ t, bool_decide (datetime now ≤ t)) <$> col_expire r
  | ExpireLtNow => (λ t, bool_decide (t < datetime now)) <$> col_expire r
  | SqlAnd a b => sql_and (sql_eval now r a) (sql_eval now r b)
  | SqlOr a b => sql_or (sql_eval now r a) (sql_eval now r b)
  end.

(** A row is kept by [WHERE] when the condition is true, not when it is
    false or [NULL]. *)
Definition sql_where (now : Z) (e : SqlExpr) (r : Row) : bool :=
  match sql_eval now r e with Some true => true | _ => false end.

(** [SELECT ... WHERE e LIMIT 1] through [Database.get]: the first row
    found, or [undefined]. *)
Definition sql_select_one (now : Z) (e : SqlExpr) (db : list Row) : option Row :=
  find (sql_where now e) db.

Definition sql_delete (now : Z) (e : SqlExpr) (db : list Row) : list Row :=
  filter (λ r, sql_where now e r = false) db.

Definition sql_update (now : Z) (f : Row → Row) (e : SqlExpr) (db : list Row) : list Row :=
  (λ r, if sql_where now e r then f r else r) <$> db.

Definition same_primary_key (a b : Row) : bool :=
  bool_decide (col_namespace a = col_namespace b)
  && bool_decide (col_key a = col_key b).

(** [INSERT] and [INSERT OR REPLACE]: the former fails with
    [SQLITE_CONSTRAINT] ([None]) when the primary key is taken. *)
Definition sql_insert (or_replace : bool) (r : Row) (db : list Row) : option (list Row) :=
  if existsb (same_primary_key r) db then
    if or_replace
    then Some (filter (λ r', same_primary_key r r' = false) db ++ [r])
    else None
  else Some (db ++ [r]).

(** The condition of [pull] and [has]:
    [namespace = ? AND key = ? AND ( expire = NULL OR expire >= DATETIME("now") )]. *)
Definition where_live (ns k : string) : SqlExpr :=
  SqlAnd (NamespaceEq ns) (SqlAnd (KeyEq k) (SqlOr ExpireEqNull ExpireGeNow)).

(** ** External collaborators

    The MD5 digest of [crypto], [JSON], and the drivers of Redis, of
    Memcached and of the file system are not part of the class: it is
    written against their interface.  [Ext] is whatever state they keep;
    a call gives back what the callback receives ([None]: an error, or an
    exception for the synchronous calls) and the state after it. *)
Class Collaborators (Ext : Type) := {
  md5 : string → string;
  JSON_stringify : JSValue → option string;
  JSON_parse : string → option JSValue;
  (* what SQLite makes of [value + ?] on the TEXT column *)
  sqlite_add : string → Z → string;
  redis_set : string → string → Ext → option unit * Ext;
  redis_expire : string → Z → Ext → option unit * Ext;
  redis_exists : string → Ext → option Z * Ext;
  redis_get : string → Ext → option (option string) * Ext;
  redis_del : string → Ext → option unit * Ext;
  redis_incrbyfloat : string → Z → Ext → option unit * Ext;
  memcached_set : string → JSValue → option Z → Ext → option unit * Ext;
  memcached_get : string → Ext → option JSValue * Ext;
  memcached_del : string → Ext → option unit * Ext;
  memcached_incr : string → Z → Ext → option unit * Ext;
  memcached_decr : string → Z → Ext → option unit * Ext;
  fs_existsSync : string → Ext → option bool * Ext;
  fs_mkdirSync : string → Ext → option unit * Ext;
  fs_writeFile : string → string → Ext → option unit * Ext;
  fs_readFileSync : string → Ext → option string * Ext;
  fs_unlinkSync : string → Ext → option unit * Ext
}.

(** ** The state

    The variables of the module ([staticStorage],
    [garbageCollectorInterval]), the interval timers that are armed in the
    event loop, the fields of one instance of the class, and the state of
    the collaborators. *)
Inductive Callback := GlobalSweep | LocalSweep.

Record State (Ext : Type) := mkState {
  (* module *)
  staticStorage : Storage;
  garbageCollectorInterval : option nat;
  (* event loop *)
  timers : gmap nat Callback;
  next_timer : nat;
  (* this *)
  strategy : JSValue;
  namespace : option string;
  namaspaceHash : option string;
  defaultTTL : option Z;
  storage : option Storage;
  this_garbageCollectorInterval : option nat;
  redisConnection : bool;
  memcachedConnection : bool;
  sqliteConnection : option (list Row);
  storagePath : option string;
  (* collaborators *)
  ext : Ext
}.
Arguments mkState {Ext}.
Arguments staticStorage {Ext}.
Arguments garbageCollectorInterval {Ext}.
Arguments timers {Ext}.
Arguments next_timer {Ext}.
Arguments strategy {Ext}.
Arguments namespace {Ext}.
Arguments namaspaceHash {Ext}.
Arguments defaultTTL {Ext}.
Arguments storage {Ext}.
Arguments this_garbageCollectorInterval {Ext}.
Arguments redisConnection {Ext}.
Arguments memcachedConnection {Ext}.
Arguments sqliteConnection {Ext}.
Arguments storagePath {Ext}.
Arguments ext {Ext}.

Definition set_staticStorage {Ext} (v : Storage) (s : State Ext) : State Ext :=
  let 'mkState _ b c d e f g h i j k l m n o := s in
  mkState v b c d e f g h i j k l m n o.

Definition set_garbageCollectorInterval {Ext} (v : option nat) (s : State Ext) : State Ext :=
  let 'mkState a _ c d e f g h i j k l m n o := s in
  mkState a v c d e f g h i j k l m n o.

Definition set_timers {Ext} (v : gmap nat Callback) (next : nat) (s : State Ext) : State Ext :=
  let 'mkState a b _ _ e f g h i j k l m n o := s in
  mkState a b v next e f g h i j k l m n o.

Definition set_strategy {Ext} (v : JSValue) (s : State Ext) : State Ext :=
  let 'mkState a b c d _ f g h i j k l m n o := s in
  mkState a b c d v f g h i j k l m n o.

Definition set_namaspaceHash {Ext} (v : option string) (s : State Ext) : State Ext :=
  let 'mkState a b c d e f _ h i j k l m n o := s in
  mkState a b c d e f v h i j k l m n o.

Definition set_storage {Ext} (v : option Storage) (s : State Ext) : State Ext :=
  let 'mkState a b c d e f g h _ j k l m n o := s in
  mkState a b c d e f g h v j k l m n o.

Definition set_this_garbageCollectorInterval {Ext} (v : option nat) (s : State Ext) : State Ext :=
  let 'mkState a b c d e f g h i _ k l m n o := s in
  mkState a b c d e f g h i v k l m n o.

Definition set_sqliteConnection {Ext} (v : option (list Row)) (s : State Ext) : State Ext :=
  let 'mkState a b c d e f g h i j k l _ n o := s in
  mkState a b c d e f g h i j k l v n o.

Definition set_ext {Ext} (v : Ext) (s : State Ext) : State Ext :=
  let 'mkState a b c d e f g h i j k l m n _ := s in
  mkState a b c d e f g h i j k l m n v.

(** ** Strategies *)

Definition STRATEGY_INTERNAL : Z := 1.
Definition STRATEGY_LOCAL : Z := 1.
Definition STRATEGY_SHARED : Z := 2.
Definition STRATEGY_REDIS : Z := 4.
Definition STRATEGY_MEMCACHED : Z := 5.
Definition STRATEGY_SQLITE3 : Z := 6.
Definition STRATEGY_FILE : Z := 7.

(** [String.prototype.toLowerCase], on the letters A to Z.  No character
    outside ASCII has a lower case that occurs in a strategy name. *)
Definition lower_ascii (c : Ascii.ascii) : Ascii.ascii :=
  let n := Ascii.N_of_ascii c in
  if ((65 <=? n) && (n <=? 90))%N then Ascii.ascii_of_N (n + 32) else c.

Fixpoint toLowerCase (s : string) : string :=
  match s with
  | EmptyString => EmptyString
  | String c rest => String (lower_ascii c) (toLowerCase rest)
  end.

(** A [case] label of a [switch] matches by [===]. *)
Definition case_number (v : JSValue) (label : Z) : bool :=
  match v with JNum n => bool_decide (n = label) | _ => false end.

Definition case_string (v : JSValue) (label : string) : bool :=
  match v with JStr s => bool_decide (s = label) | _ => false end.

Definition setStrategy {Ext} (strategy0 : JSValue) (s : State Ext) : State Ext :=
  let subject :=
    match strategy0 with
    | JStr name => JStr (toLowerCase name)
    | _ => strategy0
    end in
  let chosen :=
    if case_number subject STRATEGY_SHARED || case_string subject "shared"
    then STRATEGY_SHARED
    else if case_number subject STRATEGY_REDIS || case_string subject "redis"
    then STRATEGY_REDIS
    else if case_number subject STRATEGY_MEMCACHED || case_string subject "memcached"
    then STRATEGY_MEMCACHED
    else if case_number subject STRATEGY_SQLITE3 || case_string subject "sqlite"
            || case_string subject "sqlite3"
    then STRATEGY_SQLITE3
    else if case_number subject STRATEGY_FILE || case_string subject "file"
    then STRATEGY_FILE
    else STRATEGY_INTERNAL in
  set_strategy (JNum chosen) s.

(** [typeof(this.strategy) === 'number' && this.strategy !== 3 &&
     this.strategy > 0 && this.strategy <= 7 ? this.strategy : 1] *)
Definition getStrategy {Ext} (s : State Ext) : Z :=
  match strategy s with
  | JNum n => if negb (bool_decide (n = 3)) && (0 <? n) && (n <=? 7) then n else 1
  | _ => 1
  end.

Definition getNamespace {Ext} (s : State Ext) : string :=
  default "" (namespace s).

(** [defaultTTL] is [None] while the field is [undefined]. *)
Definition getDefaultTTL {Ext} (s : State Ext) : Z :=
  match defaultTTL s with
  | None => 0
  | Some ttl => if ttl <=? 0 then 0 else ttl
  end.

(** ** Key derivation *)

Record DerivedKey := mkKey {
  key_namespace : string;
  key_key : option string;
  key_merged : option string
}.

(** A field of the derived key where the code needs a string.  The
    methods below have checked the key, so both fields are strings. *)
Definition text (field : option string) : string := default "null" field.

Section Facade.
Context {Ext : Type} `{Collaborators Ext}.

Definition createKey (key : JSValue) (s : State Ext) : DerivedKey * State Ext :=
  let rehash s :=
    let namespace := getNamespace s in
    set_namaspaceHash
      (Some (if bool_decide (namespace = "") then "*" else md5 namespace)) s in
  let s :=
    match namaspaceHash s with
    | Some h => if bool_decide (h = "") then rehash s else s
    | None => rehash s
    end in
  let ns := default "" (namaspaceHash s) in
  let k := if invalid_key key then None else Some (md5 (property_key key)) in
  (mkKey ns k ((λ k, "tiny-cacher:" +:+ ns +:+ ":" +:+ k) <$> k), s).

(** [init]: [None] when it throws. *)
Definition init (s : State Ext) : option (State Ext) :=
  let strategy := getStrategy s in
  if bool_decide (strategy = STRATEGY_SHARED) then Some s
  else if bool_decide (strategy = STRATEGY_REDIS) then
    if redisConnection s then Some s else None
  else if bool_decide (strategy = STRATEGY_MEMCACHED) then
    if memcachedConnection s then Some s else None
  else if bool_decide (strategy = STRATEGY_SQLITE3) then
    match sqliteConnection s with Some _ => Some s | None => None end
  else if bool_decide (strategy = STRATEGY_FILE) then
    match storagePath s with
    | Some path => if bool_decide (path = "") then None else Some s
    | None => None
    end
  else
    match storage s with
    | Some _ => Some s
    | None => Some (set_storage (Some ∅) s)
    end.

(** ** Single-key methods

    [now] is what [new Date()] reads, the same at every reading within
    one call; [expire.setSeconds(expire.getSeconds() + ttl)] moves the
    date by [ttl] seconds.  [overwrite], [quiet] and
    [omitNotFound] are [true] for the boolean [true] and [false] for any
    other argument (the code tests [=== true]).  [ttl] and the delta of
    [increment] are [None] for an argument that is [null] or not a number
    ([isNaN]), the number otherwise.  Messages written with [console.log]
    in verbose mode are left out. *)

Definition reject {A} (message : string) (s : State Ext) : Outcome A * State Ext :=
  (Rejected (Message message), s).

(** The callbacks of [push] on Redis: [set], then [expire] when there is
    a TTL. *)
Definition redis_store (merged value : string) (ttl : option Z) (s : State Ext)
    : Outcome unit * State Ext :=
  match redis_set merged value (ext s) with
  | (None, e) => reject "An error occurred in Redis transaction." (set_ext e s)
  | (Some _, e) =>
      match ttl with
      | None => (Resolved tt, set_ext e s)
      | Some ttl =>
          match redis_expire merged ttl e with
          | (None, e) => reject "An error occurred in Redis transaction." (set_ext e s)
          | (Some _, e) => (Resolved tt, set_ext e s)
          end
      end
  end.

Definition redis_push (key : DerivedKey) (v : JSValue) (overwrite : bool)
    (ttl : option Z) (s : State Ext) : Outcome unit * State Ext :=
  match JSON_stringify v with
  | None => reject "Unable to serialise the given value as JSON string." s
  | Some v =>
      if overwrite then redis_store (text (key_merged key)) v ttl s
      else
        match redis_exists (text (key_merged key)) (ext s) with
        | (None, e) => reject "An error occurred in Redis transaction." (set_ext e s)
        | (Some result, e) =>
            if negb (bool_decide (result = 0))
            then reject "This key already exists." (set_ext e s)
            else redis_store (text (key_merged key)) v ttl (set_ext e s)
        end
  end.

Definition memcached_store (merged : string) (v : JSValue) (ttl : option Z)
    (s : State Ext) : Outcome unit * State Ext :=
  match memcached_set merged v ttl (ext s) with
  | (None, e) => reject "An error occurred in Memcached transaction." (set_ext e s)
  | (Some _, e) => (Resolved tt, set_ext e s)
  end.

Definition memcached_push (key : DerivedKey) (v : JSValue) (overwrite : bool)
    (ttl : option Z) (s : State Ext) : Outcome unit * State Ext :=
  if overwrite then memcached_store (text (key_merged key)) v ttl s
  else
    match memcached_get (text (key_merged key)) (ext s) with
    | (None, e) => reject "An error occurred in Memcached transaction." (set_ext e s)
    | (Some result, e) =>
        if negb (bool_decide (typeof result = TUndefined))
        then reject "This key already exists." (set_ext e s)
        else memcached_store (text (key_merged key)) v ttl (set_ext e s)
    end.

(** [INSERT [OR REPLACE] INTO cache_storage (namespace, key, value,
    numeric, date, expire) VALUES (?, ?, ?, ?, DATETIME("now"), ?)] *)
Definition sqlite_push (now : Z) (key : DerivedKey) (v : JSValue) (overwrite : bool)
    (expire : option Z) (s : State Ext) : Outcome unit * State Ext :=
  let numeric := if bool_decide (typeof v = TNumber) then 1 else 0 in
  match JSON_stringify v with
  | None => reject "Unable to serialise the given value as JSON string." s
  | Some v =>
      match sqliteConnection s with
      | None => (Rejected TypeError, s)
      | Some db =>
          let row := mkRow (key_namespace key) (text (key_key key)) v numeric
                           (datetime now) (datetime <$> expire) in
          match sql_insert overwrite row db with
          | None => reject "This key already exists." s
          | Some db => (Resolved tt, set_sqliteConnection (Some db) s)
          end
      end
  end.

Definition file_push (key : DerivedKey) (v : JSValue) (overwrite : bool)
    (s : State Ext) : Outcome unit * State Ext :=
  match JSON_stringify v with
  | None => reject "Unable to serialise the given value as JSON string." s
  | Some v =>
      let path := default "" (storagePath s) +:+ "/" +:+ key_namespace key in
      match fs_existsSync path (ext s) with
      | (None, e) =>
          reject "Unable to check for the storage directory existence." (set_ext e s)
      | (Some present, e) =>
          match (if present then (Some tt, e) else fs_mkdirSync path e) with
          | (None, e) =>
              reject "An error occurred while creating the storage directory." (set_ext e s)
          | (Some _, e) =>
              let path := path +:+ "/" +:+ text (key_key key) +:+ ".cache" in
              match (if overwrite then (Some false, e) else fs_existsSync path e) with
              | (None, e) => (Rejected Thrown, set_ext e s)
              | (Some true, e) => reject "This key already exists." (set_ext e s)
              | (Some false, e) =>
                  match fs_writeFile path v e with
                  | (None, e) => reject "An error occurred while writing the file." (set_ext e s)
                  | (Some _, e) => (Resolved tt, set_ext e s)
                  end
              end
          end
      end
  end.

Definition push (now : Z) (key v : JSValue) (overwrite : bool) (ttl : option Z)
    (s : State Ext) : Outcome unit * State Ext :=
  if invalid_key key then reject "Invalid key." s else
  let currentDate := now in
  let ttl := match ttl with Some n => n | None => getDefaultTTL s end in
  (* [ttl = null] when [ttl <= 0], else [expire.setSeconds(expire.getSeconds() + ttl)] *)
  let expire := if ttl <=? 0 then None else Some (now + ttl * 1000) in
  let ttl := if ttl <=? 0 then None else Some ttl in
  let '(key, s) := createKey key s in
  match init s with
  | None => reject "An error occurred while initialising the storage." s
  | Some s =>
      let strategy := getStrategy s in
      let element_expire := match expire with None => ExpNull | Some t => ExpDate t end in
      if bool_decide (strategy = STRATEGY_SHARED) then
        let '(o, st) := storage_push currentDate (key_namespace key) (text (key_key key))
                          v overwrite element_expire (staticStorage s) in
        (o, set_staticStorage st s)
      else if bool_decide (strategy = STRATEGY_REDIS) then redis_push key v overwrite ttl s
      else if bool_decide (strategy = STRATEGY_MEMCACHED) then memcached_push key v overwrite ttl s
      else if bool_decide (strategy = STRATEGY_SQLITE3) then sqlite_push now key v overwrite expire s
      else if bool_decide (strategy = STRATEGY_FILE) then file_push key v overwrite s
      else
        match storage s with
        | None => (Rejected TypeError, s)
        | Some st =>
            let '(o, st) := storage_push currentDate (key_namespace key) (text (key_key key))
                              v overwrite element_expire st in
            (o, set_storage (Some st) s)
        end
  end.

(** The path of the file of a key:
    [this.storagePath + '/' + key.namespace + '/' + key.key + '.cache']. *)
Definition cache_file (key : DerivedKey) (s : State Ext) : string :=
  default "" (storagePath s) +:+ "/" +:+ key_namespace key +:+ "/"
    +:+ text (key_key key) +:+ ".cache".

Definition pull (now : Z) (key : JSValue) (quiet : bool) (s : State Ext)
    : Outcome JSValue * State Ext :=
  if invalid_key key then reject "Key cannot be an empty string." s else
  let currentDate := now in
  let '(key, s) := createKey key s in
  match init s with
  | None => reject "An error occurred while initialising the storage." s
  | Some s =>
      let strategy := getStrategy s in
      if bool_decide (strategy = STRATEGY_SHARED) then
        match storage_pull currentDate (key_namespace key) (text (key_key key)) quiet
                (staticStorage s) with
        | None => (Rejected TypeError, s)
        | Some (o, st) => (o, set_staticStorage st s)
        end
      else if bool_decide (strategy = STRATEGY_REDIS) then
        match redis_get (text (key_merged key)) (ext s) with
        | (None, e) => reject "An error occurred in Redis transaction." (set_ext e s)
        | (Some (Some v), e) =>
            match JSON_parse v with
            | Some v => (Resolved v, set_ext e s)
            | None => reject "An error occurred while parsing the serialised data." (set_ext e s)
            end
        | (Some None, e) => (not_found quiet "No such element found.", set_ext e s)
        end
      else if bool_decide (strategy = STRATEGY_MEMCACHED) then
        match memcached_get (text (key_merged key)) (ext s) with
        | (None, e) => reject "An error occurred in Memcached transaction." (set_ext e s)
        | (Some v, e) =>
            if bool_decide (typeof v = TUndefined)
            then (not_found quiet "No such element found.", set_ext e s)
            else (Resolved v, set_ext e s)
        end
      else if bool_decide (strategy = STRATEGY_SQLITE3) then
        match sqliteConnection s with
        | None => (Rejected TypeError, s)
        | Some db =>
            match sql_select_one now (where_live (key_namespace key) (text (key_key key))) db with
            | None => (not_found quiet "No such element found.", s)
            | Some element =>
                match JSON_parse (col_value element) with
                | Some v => (Resolved v, s)
                | None => reject "An error occurred while parsing the serialised data." s
                end
            end
        end
      else if bool_decide (strategy = STRATEGY_FILE) then
        let path := cache_file key s in
        match fs_existsSync path (ext s) with
        | (None, e) => reject "Unable to check for the file existence." (set_ext e s)
        | (Some false, e) => (not_found quiet "No such element found.", set_ext e s)
        | (Some true, e) =>
            match fs_readFileSync path e with
            | (None, e) => reject "An error occurred while reading the file content." (set_ext e s)
            | (Some data, e) =>
                match JSON_parse data with
                | Some v => (Resolved v, set_ext e s)
                | None =>
                    reject "An error occurred while parsing the serialised data." (set_ext e s)
                end
            end
        end
      else
        match storage s with
        | None => (Rejected TypeError, s)
        | Some st =>
            match storage_pull currentDate (key_namespace key) (text (key_key key)) quiet st with
            | None => (Rejected TypeError, s)
            | Some (o, st) => (o, set_storage (Some st) s)
            end
        end
  end.

Definition has (now : Z) (key : JSValue) (s : State Ext) : Outcome bool * State Ext :=
  if invalid_key key then reject "Key cannot be an empty string." s else
  let '(key, s) := createKey key s in
  match init s with
  | None => reject "An error occurred while initialising the storage." s
  | Some s =>
      let strategy := getStrategy s in
      if bool_decide (strategy = STRATEGY_SHARED) then
        match storage_has (key_namespace key) (text (key_key key)) (staticStorage s) with
        | None => (Rejected TypeError, s)
        | Some o => (o, s)
        end
      else if bool_decide (strategy = STRATEGY_REDIS) then
        match redis_exists (text (key_merged key)) (ext s) with
        | (None, e) => reject "An error occurred in Redis transaction." (set_ext e s)
        | (Some v, e) => (Resolved (negb (bool_decide (v = 0))), set_ext e s)
        end
      else if bool_decide (strategy = STRATEGY_MEMCACHED) then
        match memcached_get (text (key_merged key)) (ext s) with
        | (None, e) => reject "An error occurred in Memcached transaction." (set_ext e s)
        | (Some v, e) => (Resolved (negb (bool_decide (typeof v = TUndefined))), set_ext e s)
        end
      else if bool_decide (strategy = STRATEGY_SQLITE3) then
        match sqliteConnection s with
        | None => (Rejected TypeError, s)
        | Some db =>
            match sql_select_one now (where_live (key_namespace key) (text (key_key key))) db with
            | None => (Resolved false, s)
            | Some _ => (Resolved true, s)
            end
        end
      else if bool_decide (strategy = STRATEGY_FILE) then
        match fs_existsSync (cache_file key s) (ext s) with
        | (None, e) => reject "Unable to check for the file existence." (set_ext e s)
        | (Some present, e) => (Resolved present, set_ext e s)
        end
      else
        match storage s with
        | None => (Rejected TypeError, s)
        | Some st =>
            match storage_has (key_namespace key) (text (key_key key)) st with
            | None => (Rejected TypeError, s)
            | Some o => (o, s)
            end
        end
  end.

Definition increment (key : JSValue) (delta : option Z) (s : State Ext)
    : Outcome unit * State Ext :=
  if invalid_key key then reject "Key cannot be an empty string." s else
  let delta := default 1 delta in
  if bool_decide (delta = 0) then (Resolved tt, s) else
  let '(key, s) := createKey key s in
  match init s with
  | None => reject "An error occurred while initialising the storage." s
  | Some s =>
      let strategy := getStrategy s in
      if bool_decide (strategy = STRATEGY_SHARED) then
        (Resolved tt,
         set_staticStorage
           (storage_increment (key_namespace key) (text (key_key key)) delta (staticStorage s)) s)
      else if bool_decide (strategy = STRATEGY_REDIS) then
        match redis_incrbyfloat (text (key_merged key)) delta (ext s) with
        | (None, e) => reject "An error occurred in Redis transaction." (set_ext e s)
        | (Some _, e) => (Resolved tt, set_ext e s)
        end
      else if bool_decide (strategy = STRATEGY_MEMCACHED) then
        (* [Math.floor] is the identity on the integers of this model *)
        let buffer := if delta <? 0 then delta + 1 else delta in
        let answer :=
          if delta <? 0
          then memcached_decr (text (key_merged key)) (Z.abs buffer) (ext s)
          else memcached_incr (text (key_merged key)) buffer (ext s) in
        match answer with
        | (None, e) => reject "An error occurred in Memcached transaction." (set_ext e s)
        | (Some _, e) => (Resolved tt, set_ext e s)
        end
      else if bool_decide (strategy = STRATEGY_SQLITE3) then
        (* UPDATE cache_storage SET value = value + ?
           WHERE namespace = ? AND key = ? AND numeric = 1
           (no clock in the condition) *)
        match sqliteConnection s with
        | None => (Rejected TypeError, s)
        | Some db =>
            let db :=
              sql_update 0
                (λ r, mkRow (col_namespace r) (col_key r) (sqlite_add (col_value r) delta)
                            (col_numeric r) (col_date r) (col_expire r))
                (SqlAnd (NamespaceEq (key_namespace key))
                   (SqlAnd (KeyEq (text (key_key key))) (NumericEq 1))) db in
            (Resolved tt, set_sqliteConnection (Some db) s)
        end
      else if bool_decide (strategy = STRATEGY_FILE) then (Resolved tt, s)
      else
        match storage s with
        | None => (Rejected TypeError, s)
        | Some st =>
            (Resolved tt,
             set_storage
               (Some (storage_increment (key_namespace key) (text (key_key key)) delta st)) s)
        end
  end.

Definition remove (key : JSValue) (s : State Ext) : Outcome unit * State Ext :=
  if invalid_key key then reject "Key cannot be an empty string." s else
  let '(key, s) := createKey key s in
  match init s with
  | None => reject "An error occurred while initialising the storage." s
  | Some s =>
      let strategy := getStrategy s in
      if bool_decide (strategy = STRATEGY_SHARED) then
        match storage_remove (key_namespace key) (text (key_key key)) (staticStorage s) with
        | None => (Rejected TypeError, s)
        | Some st => (Resolved tt, set_staticStorage st s)
        end
      else if bool_decide (strategy = STRATEGY_REDIS) then
        match redis_del (text (key_merged key)) (ext s) with
        | (None, e) => reject "An error occurred in Redis transaction." (set_ext e s)
        | (Some _, e) => (Resolved tt, set_ext e s)
        end
      else if bool_decide (strategy = STRATEGY_MEMCACHED) then
        match memcached_del (text (key_merged key)) (ext s) with
        | (None, e) => reject "An error occurred in Memcached transaction." (set_ext e s)
        | (Some _, e) => (Resolved tt, set_ext e s)
        end
      else if bool_decide (strategy = STRATEGY_SQLITE3) then
        (* DELETE FROM cache_storage WHERE namespace = ? AND key = ?
           (no clock in the condition) *)
        match sqliteConnection s with
        | None => (Rejected TypeError, s)
        | Some db =>
            let db :=
              sql_delete 0
                (SqlAnd (NamespaceEq (key_namespace key)) (KeyEq (text (key_key key)))) db in
            (Resolved tt, set_sqliteConnection (Some db) s)
        end
      else if bool_decide (strategy = STRATEGY_FILE) then
        match fs_unlinkSync (cache_file key s) (ext s) with
        | (None, e) => reject "An error occurred while removing the file." (set_ext e s)
        | (Some _, e) => (Resolved tt, set_ext e s)
        end
      else
        match storage s with
        | None => (Rejected TypeError, s)
        | Some st =>
            match storage_remove (key_namespace key) (text (key_key key)) st with
            | None => (Rejected TypeError, s)
            | Some st => (Resolved tt, set_storage (Some st) s)
            end
        end
  end.

(** ** Multi-key methods

    Each request runs its executor when it is created, in the order of
    the keys; [Promise.all] joins the outcomes. *)
Fixpoint run_requests {A B} (request : B → State Ext → Outcome A * State Ext)
    (items : list B) (s : State Ext) : list (Outcome A) * State Ext :=
  match items with
  | [] => ([], s)
  | x :: rest =>
      let '(o, s) := request x s in
      let '(os, s) := run_requests request rest s in
      (o :: os, s)
  end.

Definition pushMulti (now : Z) (elements : JSValue) (overwrite : bool) (ttl : option Z)
    (s : State Ext) : Outcome unit * State Ext :=
  if negb (bool_decide (typeof elements = TObject)) || is_null elements
  then reject "Invalid elements." s
  else if existsb (λ p, invalid_key (JStr p.1)) (for_in elements)
  then reject "Invalid key found." s
  else if bool_decide (for_in elements = []) then (Resolved tt, s)
  else
    let '(requests, s) :=
      run_requests (λ p, push now (JStr p.1) p.2 overwrite ttl) (for_in elements) s in
    match Promise_all requests with
    | Resolved _ => (Resolved tt, s)
    | Rejected ex => (Rejected ex, s)
    end.

(** The object [pullMulti] and [hasMulti] fill:
    [data[keys[i]] = elements[i]] for [i] from 0 on, leaving out, with
    [omitNotFound], the elements that are [null]. *)
Definition collect (omitNotFound : bool) (keys elements : list JSValue) : Props :=
  if omitNotFound then
    foldl (λ data p, if negb (is_null p.2) then object_set data (property_key p.1) p.2 else data)
      [] (zip keys elements)
  else
    foldl (λ data p, object_set data (property_key p.1) p.2) [] (zip keys elements).

Definition pullMulti (now : Z) (keys : JSValue) (quiet omitNotFound : bool)
    (s : State Ext) : Outcome JSValue * State Ext :=
  match keys with
  | JArr keys =>
      if bool_decide (length keys = 0%nat) then (Resolved (JObj []), s)
      else if existsb invalid_key keys then reject "Invalid key found." s
      else
        let '(requests, s) := run_requests (λ key, pull now key quiet) keys s in
        match Promise_all requests with
        | Resolved elements => (Resolved (JObj (collect omitNotFound keys elements)), s)
        | Rejected ex => (Rejected ex, s)
        end
  | _ => reject "Invalid keys." s
  end.

Definition hasMulti (now : Z) (keys : JSValue) (s : State Ext)
    : Outcome JSValue * State Ext :=
  match keys with
  | JArr keys =>
      if bool_decide (length keys = 0%nat) then (Resolved (JObj []), s)
      else if existsb invalid_key keys then reject "Invalid key found." s
      else
        let '(requests, s) := run_requests (has now) keys s in
        match Promise_all requests with
        | Resolved elements => (Resolved (JObj (collect false keys (JBool <$> elements))), s)
        | Rejected ex => (Rejected ex, s)
        end
  | _ => reject "Invalid keys." s
  end.

Definition hasAll (now : Z) (keys : JSValue) (s : State Ext) : Outcome bool * State Ext :=
  match keys with
  | JArr keys =>
      if bool_decide (length keys = 0%nat) then (Resolved true, s)
      else if existsb invalid_key keys then reject "Invalid key found." s
      else
        let '(requests, s) := run_requests (has now) keys s in
        match Promise_all requests with
        | Resolved elements => (Resolved (forallb id elements), s)
        | Rejected ex => (Rejected ex, s)
        end
  | _ => reject "Invalid keys." s
  end.

Definition incrementMulti (keys : JSValue) (delta : option Z) (s : State Ext)
    : Outcome unit * State Ext :=
  match keys with
  | JArr keys =>
      if bool_decide (length keys = 0%nat) then (Resolved tt, s)
      else if existsb invalid_key keys then reject "Invalid key found." s
      else
        let '(requests, s) := run_requests (λ key, increment key delta) keys s in
        match Promise_all requests with
        | Resolved _ => (Resolved tt, s)
        | Rejected ex => (Rejected ex, s)
        end
  | _ => reject "Invalid keys." s
  end.

(** [removeMulti] resolves with [{}] for no key and with nothing
    ([undefined]) after the removals. *)
Definition removeMulti (keys : JSValue) (s : State Ext) : Outcome JSValue * State Ext :=
  match keys with
  | JArr keys =>
      if bool_decide (length keys = 0%nat) then (Resolved (JObj []), s)
      else if existsb invalid_key keys then reject "Invalid key found." s
      else
        let '(requests, s) := run_requests remove keys s in
        match Promise_all requests with
        | Resolved _ => (Resolved JUndefined, s)
        | Rejected ex => (Rejected ex, s)
        end
  | _ => reject "Invalid keys." s
  end.

End Facade.

(** ** Garbage collectors *)

#[global] Instance Callback_eq_dec : EqDecision Callback.
Proof. solve_decision. Defined.

(** [setInterval] arms a new timer and gives back its [Timeout] object;
    [clearInterval] disarms it. *)
Definition setInterval {Ext} (callback : Callback) (s : State Ext) : nat * State Ext :=
  (next_timer s, set_timers (<[next_timer s := callback]> (timers s)) (S (next_timer s)) s).

Definition clearInterval {Ext} (timeout : nat) (s : State Ext) : State Ext :=
  set_timers (delete timeout (timers s)) (next_timer s) s.

Definition runGarbageCollector {Ext} (now : Z) (s : State Ext) : State Ext :=
  match storage s with
  | Some st => set_storage (Some (sweep now st)) s
  | None => s
  end.

Definition startGarbageCollector {Ext} (now : Z) (s : State Ext) : bool * State Ext :=
  match this_garbageCollectorInterval s with
  | None =>
      let '(timeout, s) := setInterval LocalSweep s in
      (true, runGarbageCollector now (set_this_garbageCollectorInterval (Some timeout) s))
  | Some _ => (false, s)
  end.

(** The instance method that stops the collector of the instance bears
    the name of the static one, and tests the variable of the module:
    [typeof(this.garbageCollectorInterval) !== 'undefined' &&
     garbageCollectorInterval !== null]. *)
Definition stopGlobalGarbageCollector {Ext} (s : State Ext) : bool * State Ext :=
  match this_garbageCollectorInterval s, garbageCollectorInterval s with
  | Some timeout, Some _ => (true, clearInterval timeout s)
  | _, _ => (false, s)
  end.

Module Static.

Definition runGlobalGarbageCollector {Ext} (now : Z) (s : State Ext) : State Ext :=
  set_staticStorage (sweep now (staticStorage s)) s.

Definition startGlobalGarbageCollector {Ext} (now : Z) (s : State Ext) : bool * State Ext :=
  match garbageCollectorInterval s with
  | None =>
      let '(timeout, s) := setInterval GlobalSweep s in
      (true, runGlobalGarbageCollector now (set_garbageCollectorInterval (Some timeout) s))
  | Some _ => (false, s)
  end.

Definition stopGlobalGarbageCollector {Ext} (s : State Ext) : bool * State Ext :=
  match garbageCollectorInterval s with
  | Some timeout => (true, clearInterval timeout s)
  | None => (false, s)
  end.

End Static.

(** A collector runs while a timer with its callback is armed. *)
Definition collecting {Ext} (callback : Callback) (s : State Ext) : bool :=
  bool_decide (callback ∈ (map_to_list (timers s)).*2).

(** One second passes: every armed timer calls its callback. *)
Definition fire {Ext} (now : Z) (callback : Callback) (s : State Ext) : State Ext :=
  match callback with
  | GlobalSweep => Static.runGlobalGarbageCollector now s
  | LocalSweep => runGarbageCollector now s
  end.

Definition tick {Ext} (now : Z) (s : State Ext) : State Ext :=
  foldr (fire now) s (map_to_list (timers s)).*2.

(** ** A state to start from, and collaborators to run examples with *)

(** A process in which the module has just been loaded and the instance
    built by [new TinyCacher(strategy)]. *)
Definition fresh {Ext} (strategy : JSValue) (e : Ext) : State Ext :=
  setStrategy strategy
    (mkState ∅ None ∅ 0%nat JUndefined None None None None None false false None None e).

(** Collaborators that write down every call made to them, and answer
    that nothing is stored.  The digest is a stand-in that keeps the keys
    readable; [JSON] handles strings only, and keeps them as they are. *)
#[local] Instance recorder : Collaborators (list string) := {|
  md5 := λ text, "#" +:+ text;
  JSON_stringify := λ v, match v with JStr s => Some s | _ => None end;
  JSON_parse := λ text, Some (JStr text);
  sqlite_add := λ text _, text;
  redis_set := λ k _ log, (Some tt, log ++ ["redis.set " +:+ k]);
  redis_expire := λ k _ log, (Some tt, log ++ ["redis.expire " +:+ k]);
  redis_exists := λ k log, (Some 0, log ++ ["redis.exists " +:+ k]);
  redis_get := λ k log, (Some None, log ++ ["redis.get " +:+ k]);
  redis_del := λ k log, (Some tt, log ++ ["redis.del " +:+ k]);
  redis_incrbyfloat := λ k _ log, (Some tt, log ++ ["redis.incrbyfloat " +:+ k]);
  memcached_set := λ k _ _ log, (Some tt, log ++ ["memcached.set " +:+ k]);
  memcached_get := λ k log, (Some JUndefined, log ++ ["memcached.get " +:+ k]);
  memcached_del := λ k log, (Some tt, log ++ ["memcached.del " +:+ k]);
  memcached_incr := λ k _ log, (Some tt, log ++ ["memcached.incr " +:+ k]);
  memcached_decr := λ k _ log, (Some tt, log ++ ["memcached.decr " +:+ k]);
  fs_existsSync := λ path log, (Some false, log ++ ["fs.existsSync " +:+ path]);
  fs_mkdirSync := λ path log, (Some tt, log ++ ["fs.mkdirSync " +:+ path]);
  fs_writeFile := λ path _ log, (Some tt, log ++ ["fs.writeFile " +:+ path]);
  fs_readFileSync := λ path log, (None, log ++ ["fs.readFileSync " +:+ path]);
  fs_unlinkSync := λ path log, (Some tt, log ++ ["fs.unlinkSync " +:+ path])
|}.

(** ** Notions used in the statements *)

(** The strategy an input of [setStrategy] stands for: the numbers and
    the names of the strategies, the names in any case; 1 otherwise. *)
Definition strategy_names : list (string * Z) :=
  [("shared", 2); ("redis", 4); ("memcached", 5); ("sqlite", 6); ("sqlite3", 6); ("file", 7)].

Definition strategy_of_input (v : JSValue) : Z :=
  match v with
  | JNum n => if bool_decide (In n [2; 4; 5; 6; 7]) then n else 1
  | JStr name =>
      default 1 (snd <$> find (λ p, bool_decide (p.1 = toLowerCase name)) strategy_names)
  | _ => 1
  end.

(** A batch of keys that is no array, or an array with a key that is not
    a non-empty string; and what the methods answer to it. *)
Definition invalid_batch (keys : JSValue) : bool :=
  match keys with
  | JArr keys => existsb invalid_key keys
  | _ => true
  end.

Definition batch_message (keys : JSValue) : string :=
  match keys with
  | JArr _ => "Invalid key found."
  | _ => "Invalid keys."
  end.

(** The same for the elements of [pushMulti]: no object, or an object
    with a property whose name is not a non-empty string. *)
Definition is_object (v : JSValue) : bool :=
  match v with JArr _ | JObj _ => true | _ => false end.

Definition invalid_elements (elements : JSValue) : bool :=
  negb (is_object elements) || existsb (λ p, invalid_key (JStr p.1)) (for_in elements).

Definition elements_message (elements : JSValue) : string :=
  if is_object elements then "Invalid key found." else "Invalid elements.".

(** What a sweep at [now] leaves of an element: nothing when its expiry
    is a date before [now], the element otherwise. *)
Definition survivor (now : Z) (element : option Entry) : option Entry :=
  e ← element;
  match expire e with
  | ExpDate t => if bool_decide (t < now) then None else Some e
  | _ => Some e
  end.

(** The element of a storage under a namespace hash and a key hash. *)
Definition element_at (st : Storage) (ns k : string) : option Entry :=
  bucket ← st !! ns; bucket !! k.

(** The pairs of a name and an element that [pullMulti] records: all of
    them, or with [omitNotFound] those whose element is not [null]; none
    under ['__proto__']. *)
Definition recorded (omitNotFound : bool) (keys elements : list JSValue) : Props :=
  filter (λ p, p.1 ≠ "__proto__" ∧ (omitNotFound = true → is_null p.2 = false))
    (zip (property_key <$> keys) elements).

(** The element of the last pair with the name [k]. *)
Definition last_value (k : string) (pairs : Props) : option JSValue :=
  snd <$> last (filter (λ p, p.1 = k) pairs).

(** The names of a list in the order of their first occurrence. *)
Fixpoint first_occurrences (names : list string) : list string :=
  match names with
  | [] => []
  | x :: rest => x :: filter (λ y, y ≠ x) (first_occurrences rest)
  end.

(** The order of the names that are array indices. *)
Definition index_le (a b : string) : Prop :=
  (default 0 (array_index a) ≤ default 0 (array_index b))%N.

(** The object built by recording pairs one after the other. *)
Definition build (pairs : Props) : Props :=
  foldl (λ data p, object_set data p.1 p.2) [] pairs.

(** The names of the object after [insert_index]. *)
Fixpoint insert_name (n : N) (k : string) (names : list string) : list string :=
  match names with
  | [] => [k]
  | x :: rest =>
      match array_index x with
      | Some m => if (m <? n)%N then x :: insert_name n k rest else k :: names
      | None => k :: names
      end
  end.


(** A name that is an array index. *)
Definition indexed (x : string) : Prop := is_array_index x = true.

#[global] Instance indexed_dec (x : string) : Decision (indexed x).
Proof. unfold indexed. apply _. Defined.

(** ** States of the examples *)

(** The local storage after [push('b', 'x', true)] and
    [push('1', 'y', true)], with the collaborators that record. *)
Definition two_keys : State (list string) :=
  (push 2000 (JStr "1") (JStr "y") true None
     (push 1000 (JStr "b") (JStr "x") true None (fresh JUndefined [])).2).2.

(** A storage with one element, which expires at 1000. *)
Definition expiring_at_1000 : Storage :=
  {[ "*" := {[ "k" := mkEntry (JStr "v") (ExpDate 1000) ]} ]}.

(** * The rest of the class *)

(** ** Configuration *)

Definition set_namespace {Ext} (v : option string) (s : State Ext) : State Ext :=
  let 'mkState a b c d e _ g h i j k l m n o := s in
  mkState a b c d e v g h i j k l m n o.


(** The [switch] of [getStrategyName] is on
    [typeof(this.strategy) === 'number' ? this.strategy : null]. *)
Definition getStrategyName {Ext} (s : State Ext) : string :=
  let subject := match strategy s with JNum n => JNum n | _ => JNull end in
  if case_number subject STRATEGY_SHARED then "shared"
  else if case_number subject STRATEGY_REDIS then "redis"
  else if case_number subject STRATEGY_MEMCACHED then "memcached"
  else if case_number subject STRATEGY_SQLITE3 then "sqlite3"
  else if case_number subject STRATEGY_FILE then "file"
  else "local".








(** What is left of a promise that nothing ever resolves nor rejects. *)
Inductive Settlement :=
| Settled (o : Outcome unit)
| Pending.

(** The calls of [invalidate] to its collaborators, besides those of the
    other methods: [keys] of Redis, and the directory calls of the file
    system ([lstatSync(path).isDirectory()] is one of them). *)
Class Scans (Ext : Type) := {
  redis_keys : string → Ext → option (list string) * Ext;
  fs_readdirSync : string → Ext → option (list string) * Ext;
  fs_isDirectory : string → Ext → option bool * Ext;
  fs_rmdirSync : string → Ext → option unit * Ext
}.

Section Rest.
Context {Ext : Type} `{Collaborators Ext} `{Scans Ext}.

Definition setNamespace (namespace0 : JSValue) (s : State Ext) : State Ext :=
  let name := match namespace0 with JStr name => name | _ => "" end in
  if match namespace s with
     | None => true
     | Some current => negb (bool_decide (name = current))
     end
  then set_namespace (Some name)
         (set_namaspaceHash (Some (if bool_decide (name = "") then "*" else md5 name)) s)
  else s.


Definition decrementMulti (keys : JSValue) (delta : option Z) (s : State Ext)
    : Outcome unit * State Ext :=
  incrementMulti keys (Some (match delta with None => -1 | Some delta => - delta end)) s.

(** [runSQLite3GarbageCollector]:
    [DELETE FROM cache_storage WHERE expire < DATETIME("now")].  [init]
    looks at the strategy in use; the statement is sent to the connection
    of the instance whatever the strategy is, within a [try] whose
    [catch] reports an initialisation error. *)
Definition runSQLite3GarbageCollector (now : Z) (s : State Ext)
    : Outcome unit * State Ext :=
  match init s with
  | None => reject "An error occurred while initialising the storage." s
  | Some s =>
      match sqliteConnection s with
      | None => reject "An error occurred while initialising the storage." s
      | Some db =>
          (Resolved tt, set_sqliteConnection (Some (sql_delete now ExpireLtNow db)) s)
      end
  end.

(** The [forEach] of [invalidate] on Redis sends one [del] for each key
    found, and the callbacks count them down: the promise is rejected by
    the first error and resolved by the last answer; without any key
    nothing settles it.  Redis answers in the order of the commands. *)
Fixpoint redis_del_all (elements : list string) (e : Ext) : list (option unit) * Ext :=
  match elements with
  | [] => ([], e)
  | element :: rest =>
      let '(answer, e) := redis_del element e in
      let '(answers, e) := redis_del_all rest e in
      (answer :: answers, e)
  end.

Definition redis_invalidated (answers : list (option unit)) : Settlement :=
  match answers with
  | [] => Pending
  | _ =>
      if existsb (λ answer, bool_decide (answer = None)) answers
      then Settled (Rejected (Message "An error occurred in Redis transaction."))
      else Settled (Resolved tt)
  end.

(** [removeDirectory] of [invalidate] on files.  [None] at the end of
    the fuel, which bounds the depth of the directories; [(None, e)] when
    a call throws. *)
Fixpoint remove_entries (removeDirectory : string → Ext → option (option unit * Ext))
    (path : string) (elements : list string) (e : Ext) : option (option unit * Ext) :=
  match elements with
  | [] => Some (Some tt, e)
  | element :: rest =>
      let current := path +:+ "/" +:+ element in
      match fs_isDirectory current e with
      | (None, e) => Some (None, e)
      | (Some is_directory, e) =>
          match (if is_directory then removeDirectory current e
                 else Some (fs_unlinkSync current e)) with
          | None => None
          | Some (None, e) => Some (None, e)
          | Some (Some _, e) => remove_entries removeDirectory path rest e
          end
      end
  end.

Fixpoint removeDirectory (fuel : nat) (path : string) (e : Ext)
    : option (option unit * Ext) :=
  match fuel with
  | O => None
  | S fuel =>
      match fs_readdirSync path e with
      | (None, e) => Some (None, e)
      | (Some elements, e) =>
          match remove_entries (removeDirectory fuel) path elements e with
          | None => None
          | Some (None, e) => Some (None, e)
          | Some (Some _, e) => Some (fs_rmdirSync path e)
          end
      end
  end.

(** [invalidate(all)]; [all] is [true] for the boolean [true] only.
    [None] when the walk through the directories runs out of fuel. *)
Definition invalidate (fuel : nat) (all : bool) (s : State Ext)
    : option (Settlement * State Ext) :=
  let '(key, s) := createKey JNull s in
  match init s with
  | None =>
      Some (Settled (Rejected (Message "An error occurred while initialising the storage.")), s)
  | Some s =>
      let strategy := getStrategy s in
      if bool_decide (strategy = STRATEGY_SHARED) then
        if all then Some (Settled (Resolved tt), set_staticStorage ∅ s)
        else Some (Settled (Resolved tt),
                   set_staticStorage (<[key_namespace key := ∅]> (staticStorage s)) s)
      else if bool_decide (strategy = STRATEGY_REDIS) then
        let pattern :=
          if all then "tiny-cacher:*" else "tiny-cacher:" +:+ key_namespace key +:+ ":*" in
        match redis_keys pattern (ext s) with
        | (None, e) =>
            Some (Settled (Rejected (Message "An error occurred in Redis transaction.")),
                  set_ext e s)
        | (Some elements, e) =>
            let '(answers, e) := redis_del_all elements e in
            Some (redis_invalidated answers, set_ext e s)
        end
      else if bool_decide (strategy = STRATEGY_MEMCACHED) then Some (Settled (Resolved tt), s)
      else if bool_decide (strategy = STRATEGY_SQLITE3) then
        match sqliteConnection s with
        | None => Some (Settled (Rejected TypeError), s)
        | Some db =>
            let db :=
              if all then []
              else sql_delete 0 (NamespaceEq (key_namespace key)) db in
            Some (Settled (Resolved tt), set_sqliteConnection (Some db) s)
        end
      else if bool_decide (strategy = STRATEGY_FILE) then
        let directory :=
          if all then default "" (storagePath s)
          else default "" (storagePath s) +:+ "/" +:+ key_namespace key in
        match fs_existsSync directory (ext s) with
        | (None, e) =>
            Some (Settled (Rejected (Message "Unable to remove the directory.")), set_ext e s)
        | (Some false, e) => Some (Settled (Resolved tt), set_ext e s)
        | (Some true, e) =>
            match removeDirectory fuel directory e with
            | None => None
            | Some (None, e) =>
                Some (Settled (Rejected (Message "Unable to remove the directory.")),
                      set_ext e s)
            | Some (Some _, e) => Some (Settled (Resolved tt), set_ext e s)
            end
        end
      else
        if all then Some (Settled (Resolved tt), set_storage (Some ∅) s)
        else
          match storage s with
          | None => Some (Settled (Rejected TypeError), s)
          | Some st =>
              Some (Settled (Resolved tt), set_storage (Some (<[key_namespace key := ∅]> st)) s)
          end
  end.

End Rest.

(** ** Closing the connections *)



(** The calls that end a connection: [quit] of Redis, [end] of
    Memcached and [close] of SQLite3. *)
Class Closers (Ext : Type) := {
  redis_quit : Ext → Ext;
  memcached_end : Ext → Ext;
  sqlite_close : Ext → Ext
}.

Section Connections.
Context {Ext : Type} `{Closers Ext}.








End Connections.

(** Collaborators for the examples of [invalidate]: Redis holds no key
    and the directories are empty. *)
#[local] Instance recorder_scans : Scans (list string) := {|
  redis_keys := λ pattern log, (Some [], log ++ ["redis.keys " +:+ pattern]);
  fs_readdirSync := λ path log, (Some [], log ++ ["fs.readdirSync " +:+ path]);
  fs_isDirectory := λ path log, (Some false, log ++ ["fs.lstatSync " +:+ path]);
  fs_rmdirSync := λ path log, (Some tt, log ++ ["fs.rmdirSync " +:+ path])
|}.

(** ** Notions used in the statements on the rest of the class *)

(** The strategy keeps the elements in memory: Local or Shared. *)
Definition in_memory {Ext} (s : State Ext) : bool :=
  bool_decide (getStrategy s = STRATEGY_LOCAL) || bool_decide (getStrategy s = STRATEGY_SHARED).

(** The storage object the strategy addresses; the one of the instance
    is empty as long as [init] has not made it. *)
Definition memory {Ext} (s : State Ext) : Storage :=
  if bool_decide (getStrategy s = STRATEGY_SHARED) then staticStorage s
  else default ∅ (storage s).

(** The TTL [push] works with: the argument, or the default one. *)
Definition lifetime {Ext} (ttl : option Z) (s : State Ext) : Z :=
  match ttl with Some n => n | None => getDefaultTTL s end.

(** The expiry [push] gives to an element. *)
Definition expiry {Ext} (now : Z) (ttl : option Z) (s : State Ext) : Expire :=
  if lifetime ttl s <=? 0 then ExpNull else ExpDate (now + lifetime ttl s * 1000).

(** Every element has an [expire] property, as those [push] stores. *)
Definition well_formed (st : Storage) : Prop :=
  ∀ ns k e, element_at st ns k = Some e → expire e ≠ ExpUndefined.

(** The name of a strategy number. *)
Definition strategy_name (n : Z) : string :=
  if bool_decide (n = STRATEGY_SHARED) then "shared"
  else if bool_decide (n = STRATEGY_REDIS) then "redis"
  else if bool_decide (n = STRATEGY_MEMCACHED) then "memcached"
  else if bool_decide (n = STRATEGY_SQLITE3) then "sqlite3"
  else if bool_decide (n = STRATEGY_FILE) then "file"
  else "local".


(** The table of the database the instance is connected to. *)
Definition database {Ext} (s : State Ext) : list Row := default [] (sqliteConnection s).

Section RestNotions.
Context {Ext : Type} `{Collaborators Ext}.

(** The hash under which the methods address the namespace. *)
Definition namespace_hash (s : State Ext) : string :=
  key_namespace (createKey JNull s).1.

(** The hash of a namespace: ['*'] for the empty one, its digest
    otherwise. *)
Definition namespace_digest (name : string) : string :=
  if bool_decide (name = "") then "*" else md5 name.

(** The hash of the namespace, from the two fields it depends on. *)
Definition hash_of_fields (hash name : option string) : string :=
  match hash with
  | Some h => if bool_decide (h = "") then namespace_digest (default "" name) else h
  | None => namespace_digest (default "" name)
  end.

(** The hash kept by the instance, when there is one, is that of its
    namespace. *)
Definition hash_consistent (s : State Ext) : Prop :=
  match namaspaceHash s with
  | Some h => h = "" ∨ h = namespace_digest (getNamespace s)
  | None => True
  end.

(** The state after [createKey] and [init]. *)
Definition prepared (s : State Ext) : State Ext :=
  let s' := (createKey JNull s).2 in
  default s' (init s').

(** The prepared state with another storage object in the place of the
    one the strategy addresses. *)
Definition with_memory (st : Storage) (s : State Ext) : State Ext :=
  if bool_decide (getStrategy s = STRATEGY_SHARED)
  then set_staticStorage st (prepared s)
  else set_storage (Some st) (prepared s).

(** The same, from the fields: the hash is kept and the storage object
    is put in its place. *)
Definition view (shared : bool) (hash : string) (st : Storage) (s : State Ext) : State Ext :=
  if shared then set_staticStorage st (set_namaspaceHash (Some hash) s)
  else set_storage (Some st) (set_namaspaceHash (Some hash) s).

(** The element the instance holds for a key. *)
Definition element_of (s : State Ext) (key : string) : option Entry :=
  element_at (memory s) (namespace_hash s) (md5 key).

(** The instance holds a value for the key: an element whose value is
    not [undefined]. *)
Definition holds (s : State Ext) (key : string) : bool :=
  match element_of s key with
  | Some e => negb (bool_decide (typeof (value e) = TUndefined))
  | None => false
  end.

(** The prepared state with another table. *)
Definition with_database (db : list Row) (s : State Ext) : State Ext :=
  set_sqliteConnection (Some db) (prepared s).



End RestNotions.

(** A check of [well_formed] that can be run. *)
Definition expire_defined (e : Entry) : bool :=
  match expire e with ExpUndefined => false | _ => true end.

Definition well_formed_check (st : Storage) : bool :=
  bool_decide (map_Forall (λ _ bucket, map_Forall (λ _ e, expire_defined e = true) bucket) st).

(** ** States of the examples of the rest of the class *)

(** An instance on a strategy whose connections have been made: Redis,
    Memcached, an empty SQLite3 table, a directory for the files. *)
Definition connected (strategy : JSValue) : State (list string) :=
  setStrategy strategy
    (mkState ∅ None ∅ 0%nat JUndefined None None None None None true true (Some [])
       (Some "/tmp/cache") []).

(** A table with one row for the key ['k'], which expired at second 1. *)
Definition expired_row : State (list string) :=
  set_sqliteConnection (Some [mkRow "*" "#k" "old" 0 0 (Some 1)]) (connected (JStr "sqlite3")).


(** * Properties *)

(** ** Strategies *)

Lemma strategy_set_strategy {Ext} (v : JSValue) (s : State Ext) :
  strategy (set_strategy v s) = v.
Proof. by destruct s. Qed.

Lemma getStrategy_range {Ext} (s : State Ext) : In (getStrategy s) [1; 2; 4; 5; 6; 7].
Proof.
  unfold getStrategy. destruct (strategy s) as [| | |n| | |]; simpl; auto.
  destruct (negb (bool_decide (n = 3)) && (0 <? n) && (n <=? 7)) eqn:E; auto.
  apply andb_prop in E as [E E3]. apply andb_prop in E as [E1 E2].
  apply negb_true_iff, bool_decide_eq_false in E1.
  apply Z.ltb_lt in E2. apply Z.leb_le in E3. lia.
Qed.

Lemma strategy_of_input_range (v : JSValue) : In (strategy_of_input v) [1; 2; 4; 5; 6; 7].
Proof.
  destruct v as [| | |n|name| |]; simpl; auto.
  - case_bool_decide as Hn; simpl in *; lia.
  - repeat case_bool_decide; simpl; auto 10.
Qed.

Lemma getStrategy_set_strategy {Ext} (n : Z) (s : State Ext) :
  In n [1; 2; 4; 5; 6; 7] → getStrategy (set_strategy (JNum n) s) = n.
Proof.
  intros Hn. unfold getStrategy. rewrite strategy_set_strategy.
  simpl in Hn. destruct Hn as [<-|[<-|[<-|[<-|[<-|[<-|[]]]]]]]; reflexivity.
Qed.

Lemma getStrategy_setStrategy {Ext} (v : JSValue) (s : State Ext) :
  getStrategy (setStrategy v s) = strategy_of_input v.
Proof.
  unfold setStrategy.
  match goal with |- getStrategy (set_strategy (JNum ?c) s) = _ => set (chosen := c) end.
  assert (chosen = strategy_of_input v) as ->.
  { subst chosen. destruct v as [| | |n|name| |]; try reflexivity.
    - unfold strategy_of_input, case_number, case_string.
      unfold STRATEGY_SHARED, STRATEGY_REDIS, STRATEGY_MEMCACHED, STRATEGY_SQLITE3,
        STRATEGY_FILE, STRATEGY_INTERNAL.
      repeat case_bool_decide; simpl in *; subst; try reflexivity; lia.
    - unfold strategy_of_input, strategy_names, case_number, case_string. simpl.
      repeat case_bool_decide; simpl in *; try congruence; reflexivity. }
  apply getStrategy_set_strategy, strategy_of_input_range.
Qed.

(** C10. Whatever is given to [setStrategy], [getStrategy] then answers
    the strategy the input stands for: 2, 4, 5, 6 or 7 for the number or
    the name (in any case) of a strategy, and 1 for every other input;
    and in every state of the instance, [getStrategy], on which every
    method dispatches, answers one of 1, 2, 4, 5, 6, 7. *)
Theorem strategy_is_always_a_known_one {Ext} (v : JSValue) (s : State Ext) :
  getStrategy (setStrategy v s) = strategy_of_input v
  ∧ In (strategy_of_input v) [1; 2; 4; 5; 6; 7]
  ∧ In (getStrategy s) [1; 2; 4; 5; 6; 7].
Proof.
  split; [apply getStrategy_setStrategy|].
  split; [apply strategy_of_input_range|apply getStrategy_range].
Qed.

(** ** Validation of keys *)

Section Validation.
Context {Ext : Type} `{Collaborators Ext}.

(** C9. A single-key method called with a key that is not a non-empty
    string is rejected with the message for an invalid key and gives back
    the state it was given: no namespace hash was derived, no storage
    initialised, and no collaborator called, whatever the collaborators
    are. *)
Theorem single_key_methods_reject_invalid_key_first
    (now : Z) (key v : JSValue) (overwrite quiet : bool) (ttl delta : option Z)
    (s : State Ext) :
  invalid_key key = true →
  push now key v overwrite ttl s = (Rejected (Message "Invalid key."), s)
  ∧ pull now key quiet s = (Rejected (Message "Key cannot be an empty string."), s)
  ∧ has now key s = (Rejected (Message "Key cannot be an empty string."), s)
  ∧ remove key s = (Rejected (Message "Key cannot be an empty string."), s)
  ∧ increment key delta s = (Rejected (Message "Key cannot be an empty string."), s).
Proof.
  intros Hkey. unfold push, pull, has, remove, increment.
  rewrite Hkey. by repeat split.
Qed.

(** C5, as amended.  A multi-key method called with keys that are no
    array (elements that are no object, for [pushMulti]), or among which
    one is not a non-empty string, is rejected and gives back the state it
    was given: no request was made for any key.  A batch without keys is
    not an error: it is resolved at once, also without any request. *)
Theorem multi_key_methods_validate_before_any_request
    (now : Z) (keys elements : JSValue) (overwrite quiet omitNotFound : bool)
    (ttl delta : option Z) (s : State Ext) :
  invalid_batch keys = true →
  invalid_elements elements = true →
  (pushMulti now elements overwrite ttl s = (Rejected (Message (elements_message elements)), s)
   ∧ pullMulti now keys quiet omitNotFound s = (Rejected (Message (batch_message keys)), s)
   ∧ hasMulti now keys s = (Rejected (Message (batch_message keys)), s)
   ∧ hasAll now keys s = (Rejected (Message (batch_message keys)), s)
   ∧ removeMulti keys s = (Rejected (Message (batch_message keys)), s)
   ∧ incrementMulti keys delta s = (Rejected (Message (batch_message keys)), s))
  ∧ (pushMulti now (JObj []) overwrite ttl s = (Resolved tt, s)
     ∧ pullMulti now (JArr []) quiet omitNotFound s = (Resolved (JObj []), s)
     ∧ hasMulti now (JArr []) s = (Resolved (JObj []), s)
     ∧ hasAll now (JArr []) s = (Resolved true, s)
     ∧ removeMulti (JArr []) s = (Resolved (JObj []), s)
     ∧ incrementMulti (JArr []) delta s = (Resolved tt, s)).
Proof.
  intros Hkeys Helements. split; [split|by repeat split].
  - unfold pushMulti, invalid_elements, elements_message in *.
    destruct elements as [| | | | |items|props]; try reflexivity;
      simpl in *; by rewrite Helements.
  - unfold pullMulti, hasMulti, hasAll, removeMulti, incrementMulti, batch_message.
    destruct keys as [| | | | |items|]; try by repeat split.
    simpl in Hkeys. rewrite Hkeys.
    destruct items as [|key items]; [discriminate|]. by repeat split.
Qed.

End Validation.

(** C9, on an instance set to Redis that was never connected nor used:
    the empty key. *)
Lemma empty_key_is_rejected_first :
  let s := fresh (JStr "redis") ([] : list string) in
  push 1000 (JStr "") (JStr "v") true None s = (Rejected (Message "Invalid key."), s)
  ∧ pull 1000 (JStr "") true s = (Rejected (Message "Key cannot be an empty string."), s)
  ∧ has 1000 (JStr "") s = (Rejected (Message "Key cannot be an empty string."), s)
  ∧ remove (JStr "") s = (Rejected (Message "Key cannot be an empty string."), s)
  ∧ increment (JStr "") None s = (Rejected (Message "Key cannot be an empty string."), s).
Proof.
  exact (single_key_methods_reject_invalid_key_first 1000 (JStr "") (JStr "v") true true
           None None (fresh (JStr "redis") []) eq_refl).
Defined.

(** C5 as stated fails on the batch without keys: it is no non-empty
    collection, and every method resolves it. *)
Lemma empty_batch_is_resolved :
  let s := fresh (JStr "redis") ([] : list string) in
  pushMulti 1000 (JObj []) false None s = (Resolved tt, s)
  ∧ pullMulti 1000 (JArr []) false false s = (Resolved (JObj []), s)
  ∧ hasMulti 1000 (JArr []) s = (Resolved (JObj []), s)
  ∧ hasAll 1000 (JArr []) s = (Resolved true, s)
  ∧ removeMulti (JArr []) s = (Resolved (JObj []), s)
  ∧ incrementMulti (JArr []) None s = (Resolved tt, s).
Proof. vm_compute. by repeat split. Qed.

(** C5 as amended, on a batch whose second key is the empty string. *)
Lemma batch_with_empty_key_is_rejected_first :
  let s := fresh (JStr "redis") ([] : list string) in
  let keys := JArr [JStr "a"; JStr ""] in
  let elements := JObj [("a", JStr "v"); ("", JStr "w")] in
  (pushMulti 1000 elements true None s = (Rejected (Message "Invalid key found."), s)
   ∧ pullMulti 1000 keys true false s = (Rejected (Message "Invalid key found."), s)
   ∧ hasMulti 1000 keys s = (Rejected (Message "Invalid key found."), s)
   ∧ hasAll 1000 keys s = (Rejected (Message "Invalid key found."), s)
   ∧ removeMulti keys s = (Rejected (Message "Invalid key found."), s)
   ∧ incrementMulti keys None s = (Rejected (Message "Invalid key found."), s))
  ∧ (pushMulti 1000 (JObj []) true None s = (Resolved tt, s)
     ∧ pullMulti 1000 (JArr []) true false s = (Resolved (JObj []), s)
     ∧ hasMulti 1000 (JArr []) s = (Resolved (JObj []), s)
     ∧ hasAll 1000 (JArr []) s = (Resolved true, s)
     ∧ removeMulti (JArr []) s = (Resolved (JObj []), s)
     ∧ incrementMulti (JArr []) None s = (Resolved tt, s)).
Proof.
  exact (multi_key_methods_validate_before_any_request 1000
           (JArr [JStr "a"; JStr ""]) (JObj [("a", JStr "v"); ("", JStr "w")])
           true true false None None (fresh (JStr "redis") []) eq_refl eq_refl).
Defined.

(** ** Garbage collectors *)

Lemma collectable_before_now (now : Z) (e : Entry) :
  collectable now e
  = match expire e with ExpDate t => bool_decide (t < now) | _ => false end.
Proof.
  unfold collectable. destruct (expire e) as [| |t]; simpl; try reflexivity.
  destruct (Z.ltb_spec t now); symmetry;
    [by apply bool_decide_eq_true|by apply bool_decide_eq_false; lia].
Qed.

Lemma element_at_sweep (now : Z) (st : Storage) (ns k : string) :
  element_at (sweep now st) ns k = survivor now (element_at st ns k).
Proof.
  unfold element_at, sweep, sweep_bucket, survivor.
  rewrite lookup_fmap. destruct (st !! ns) as [bucket|]; simpl; [|reflexivity].
  rewrite map_lookup_filter. destruct (bucket !! k) as [e|]; simpl; [|reflexivity].
  rewrite collectable_before_now.
  destruct (expire e) as [| |t]; simpl; [reflexivity..|].
  destruct (bool_decide (t < now)).
  - by rewrite option_guard_False.
  - by rewrite option_guard_True.
Qed.

(** C7, as amended.  A sweep at [now], of the shared storage by
    [runGlobalGarbageCollector] and of the storage of the instance by
    [runGarbageCollector], removes the elements whose expiry is a date
    strictly before [now], in every namespace, and leaves every other
    element as it is: those without expiry and those that expire at [now]
    or later. *)
Theorem sweep_removes_the_elements_expired_before_now {Ext}
    (now : Z) (s : State Ext) (ns k : string) :
  element_at (staticStorage (Static.runGlobalGarbageCollector now s)) ns k
    = survivor now (element_at (staticStorage s) ns k)
  ∧ (st ← storage (runGarbageCollector now s); element_at st ns k)
    = survivor now (st ← storage s; element_at st ns k).
Proof.
  split.
  - destruct s; simpl. apply element_at_sweep.
  - unfold runGarbageCollector.
    destruct s as [? ? ? ? ? ? ? ? [st|] ? ? ? ? ? ?]; simpl; [apply element_at_sweep|done].
Qed.

(** C7 as stated fails on an element that expires at the very date of
    the sweep: both collectors keep it. *)
Lemma sweep_keeps_element_expiring_now :
  let s := set_storage (Some expiring_at_1000)
             (set_staticStorage expiring_at_1000 (fresh JUndefined tt)) in
  (element_at (staticStorage (Static.runGlobalGarbageCollector 1000 s)) "*" "k",
   st ← storage (runGarbageCollector 1000 s); element_at st "*" "k")
  = (Some (mkEntry (JStr "v") (ExpDate 1000)), Some (mkEntry (JStr "v") (ExpDate 1000))).
Proof. vm_compute. reflexivity. Qed.

(** C6, on the code.  In a new process [startGlobalGarbageCollector]
    answers [true] and the collector runs; [stopGlobalGarbageCollector]
    answers [true] and disarms the timer, but leaves the [Timeout] in
    [garbageCollectorInterval]: the next start answers [false] and starts
    nothing (a second later no sweep takes place), and the next stop
    answers [true] again.  The collector of the instance does the same
    once the global one has been started; before that, its stop tests the
    variable of the module, answers [false] and leaves it running. *)
Theorem collector_does_not_restart_after_stop {Ext} (e : Ext) :
  let s0 := fresh JUndefined e in
  let start1 := Static.startGlobalGarbageCollector 1000 s0 in
  let stop1 := Static.stopGlobalGarbageCollector start1.2 in
  let start2 := Static.startGlobalGarbageCollector 2000 stop1.2 in
  let stop2 := Static.stopGlobalGarbageCollector start2.2 in
  let local_start1 := startGarbageCollector 1000 start1.2 in
  let local_stop1 := stopGlobalGarbageCollector local_start1.2 in
  let local_start2 := startGarbageCollector 2000 local_stop1.2 in
  let lonely_start := startGarbageCollector 1000 s0 in
  let lonely_stop := stopGlobalGarbageCollector lonely_start.2 in
  (start1.1, stop1.1, start2.1, stop2.1) = (true, true, false, true)
  ∧ (collecting GlobalSweep start1.2, collecting GlobalSweep stop1.2,
     collecting GlobalSweep start2.2) = (true, false, false)
  ∧ (local_start1.1, local_stop1.1, local_start2.1) = (true, true, false)
  ∧ (collecting LocalSweep local_start1.2, collecting LocalSweep local_stop1.2,
     collecting LocalSweep local_start2.2) = (true, false, false)
  ∧ (lonely_start.1, lonely_stop.1, collecting LocalSweep lonely_stop.2)
    = (true, false, true)
  ∧ tick 3000 start2.2 = start2.2.
Proof. vm_compute. by repeat split. Qed.

(** ** The Local and Shared backends *)

Lemma storage_push_new_namespace (now : Z) (ns k : string) (v : JSValue)
    (overwrite : bool) (exp : Expire) (st : Storage) :
  st !! ns = None →
  storage_push now ns k v overwrite exp st
  = (Resolved tt, <[ns := {[k := mkEntry v exp]}]> st).
Proof. intros Hns. unfold storage_push. rewrite Hns. by rewrite insert_empty. Qed.

(** An element without expiry does not stop a [push] that may not
    overwrite, once the clock is past the epoch. *)
Lemma storage_push_over_null_expiry (now : Z) (ns k : string) (v : JSValue)
    (exp : Expire) (st : Storage) (bucket : Bucket) (e : Entry) :
  st !! ns = Some bucket → bucket !! k = Some e → expire e = ExpNull → 0 < now →
  storage_push now ns k v false exp st
  = (Resolved tt, <[ns := <[k := mkEntry v exp]> bucket]> st).
Proof.
  intros Hns Hk Hexp Hnow. unfold storage_push, already_exists.
  rewrite Hns, Hk, Hexp. simpl.
  destruct (Z.geb_spec 0 now); [lia|reflexivity].
Qed.

(** An element that expires at [now] or later does. *)
Lemma storage_push_over_unexpired (now t : Z) (ns k : string) (v : JSValue)
    (exp : Expire) (st : Storage) (bucket : Bucket) (e : Entry) :
  st !! ns = Some bucket → bucket !! k = Some e → expire e = ExpDate t → now ≤ t →
  storage_push now ns k v false exp st
  = (Rejected (Message "This key already exists."), st).
Proof.
  intros Hns Hk Hexp Hnow. unfold storage_push, already_exists.
  rewrite Hns, Hk, Hexp. simpl.
  destruct (Z.geb_spec t now); [reflexivity|lia].
Qed.

(** [pull] gives the value of an element whatever its expiry and the
    date. *)
Lemma storage_pull_ignores_expiry (now : Z) (ns k : string) (quiet : bool)
    (st : Storage) (bucket : Bucket) (e : Entry) :
  st !! ns = Some bucket → bucket !! k = Some e →
  typeof (value e) ≠ TUndefined → expire e ≠ ExpUndefined →
  storage_pull now ns k quiet st = Some (Resolved (value e), st).
Proof.
  intros Hns Hk Hvalue Hexp. unfold storage_pull, expire_suspicious.
  rewrite Hns, Hk. rewrite bool_decide_eq_false_2 by done. simpl.
  destruct (expire e); [done|reflexivity..].
Qed.

Lemma storage_push_overwrite (now : Z) (ns k : string) (v : JSValue)
    (exp : Expire) (st : Storage) :
  ∃ bucket, storage_push now ns k v true exp st
            = (Resolved tt, <[ns := <[k := mkEntry v exp]> bucket]> st).
Proof.
  unfold storage_push. destruct (st !! ns) as [bucket|]; [|by exists ∅].
  exists bucket. by destruct (bucket !! k).
Qed.

(** What [push] stored with [overwrite], [pull] gives back, in the
    storage object of either backend. *)
Lemma storage_round_trip (now now' : Z) (ns k : string) (v : JSValue)
    (exp : Expire) (quiet : bool) (st : Storage) :
  typeof v ≠ TUndefined → exp ≠ ExpUndefined →
  let pushed := storage_push now ns k v true exp st in
  pushed.1 = Resolved tt
  ∧ storage_pull now' ns k quiet pushed.2 = Some (Resolved v, pushed.2).
Proof.
  intros Hv Hexp pushed. subst pushed.
  destruct (storage_push_overwrite now ns k v exp st) as [bucket ->].
  split; [done|]. simpl.
  by erewrite storage_pull_ignores_expiry; [|apply lookup_insert_eq|apply lookup_insert_eq|..].
Qed.

Section Memory.
Context {Ext : Type} `{Collaborators Ext}.

(** C1, on the code.  On the Local and on the Shared backend, after
    [push('k', 'v1', false)] without TTL, a second
    [push('k', 'v2', false)] is resolved, and [pull('k')] gives ['v2']:
    the element without expiry was overwritten. *)
Theorem push_without_overwrite_replaces_element_without_expiry (e : Ext) (shared : bool) :
  let s0 := fresh (JStr (if shared then "shared" else "local")) e in
  let first := push 1000 (JStr "k") (JStr "v1") false None s0 in
  let second := push 2000 (JStr "k") (JStr "v2") false None first.2 in
  let third := pull 3000 (JStr "k") false second.2 in
  (first.1, second.1, third.1) = (Resolved tt, Resolved tt, Resolved (JStr "v2")).
Proof.
  intros s0 first second third.
  pose (st1 := {[ "*" := {[ md5 "k" := mkEntry (JStr "v1") ExpNull ]} ]} : Storage).
  pose (st2 := <[ "*" := <[ md5 "k" := mkEntry (JStr "v2") ExpNull ]>
                            {[ md5 "k" := mkEntry (JStr "v1") ExpNull ]} ]> st1 : Storage).
  pose (put := λ (st : Storage) (s : State Ext),
          if shared then set_staticStorage st s else set_storage (Some st) s).
  assert (first = (Resolved tt, put st1 (set_namaspaceHash (Some "*") s0))) as Hfirst.
  { subst first s0 put. destruct shared; unfold push; simpl;
      (rewrite storage_push_new_namespace by apply lookup_empty); reflexivity. }
  assert (second = (Resolved tt, put st2 (set_namaspaceHash (Some "*") s0))) as Hsecond.
  { subst second. rewrite Hfirst. subst s0 put. destruct shared; unfold push; simpl;
      (erewrite storage_push_over_null_expiry;
        [|apply lookup_insert_eq|apply lookup_singleton_eq|reflexivity|lia]); reflexivity. }
  assert (third.1 = Resolved (JStr "v2")) as Hthird.
  { subst third. rewrite Hsecond. subst s0 put. destruct shared; unfold pull; simpl;
      (erewrite storage_pull_ignores_expiry;
        [|apply lookup_insert_eq|apply lookup_insert_eq|done|done]); reflexivity. }
  by rewrite Hfirst, Hsecond, Hthird.
Qed.

(** The part of C1 that holds: with a TTL that has not run out, the
    second [push] is rejected and [pull] still gives ['v1']. *)
Lemma push_without_overwrite_keeps_unexpired_element (e : Ext) (shared : bool) :
  let s0 := fresh (JStr (if shared then "shared" else "local")) e in
  let first := push 1000 (JStr "k") (JStr "v1") false (Some 60) s0 in
  let second := push 2000 (JStr "k") (JStr "v2") false None first.2 in
  let third := pull 3000 (JStr "k") false second.2 in
  (first.1, second.1, third.1)
  = (Resolved tt, Rejected (Message "This key already exists."), Resolved (JStr "v1")).
Proof.
  intros s0 first second third.
  pose (st1 := {[ "*" := {[ md5 "k" := mkEntry (JStr "v1") (ExpDate 61000) ]} ]} : Storage).
  pose (put := λ (st : Storage) (s : State Ext),
          if shared then set_staticStorage st s else set_storage (Some st) s).
  assert (first = (Resolved tt, put st1 (set_namaspaceHash (Some "*") s0))) as Hfirst.
  { subst first s0 put. destruct shared; unfold push; simpl;
      (rewrite storage_push_new_namespace by apply lookup_empty); reflexivity. }
  assert (second = (Rejected (Message "This key already exists."),
                    put st1 (set_namaspaceHash (Some "*") s0))) as Hsecond.
  { subst second. rewrite Hfirst. subst s0 put. destruct shared; unfold push; simpl;
      (erewrite (storage_push_over_unexpired 2000 61000);
        [|apply lookup_insert_eq|apply lookup_singleton_eq|reflexivity|lia]); reflexivity. }
  assert (third.1 = Resolved (JStr "v1")) as Hthird.
  { subst third. rewrite Hsecond. subst s0 put. destruct shared; unfold pull; simpl;
      (erewrite storage_pull_ignores_expiry;
        [|apply lookup_insert_eq|apply lookup_singleton_eq|done|done]); reflexivity. }
  by rewrite Hfirst, Hsecond, Hthird.
Qed.

(** C2, on the code.  On the Local and on the Shared backend, an element
    pushed at 1000 with a TTL of one second, which no collector removed,
    is still given by [pull] at 5000, quiet or not. *)
Theorem pull_resolves_expired_element (e : Ext) (shared quiet : bool) :
  let s0 := fresh (JStr (if shared then "shared" else "local")) e in
  let first := push 1000 (JStr "k") (JStr "stale") true (Some 1) s0 in
  let second := pull 5000 (JStr "k") quiet first.2 in
  (first.1, second.1) = (Resolved tt, Resolved (JStr "stale")).
Proof.
  intros s0 first second.
  pose (st1 := {[ "*" := {[ md5 "k" := mkEntry (JStr "stale") (ExpDate 2000) ]} ]} : Storage).
  pose (put := λ (st : Storage) (s : State Ext),
          if shared then set_staticStorage st s else set_storage (Some st) s).
  assert (first = (Resolved tt, put st1 (set_namaspaceHash (Some "*") s0))) as Hfirst.
  { subst first s0 put. destruct shared; unfold push; simpl;
      (rewrite storage_push_new_namespace by apply lookup_empty); reflexivity. }
  assert (second.1 = Resolved (JStr "stale")) as Hsecond.
  { subst second. rewrite Hfirst. subst s0 put. destruct shared; unfold pull; simpl;
      (erewrite storage_pull_ignores_expiry;
        [|apply lookup_insert_eq|apply lookup_singleton_eq|done|done]); reflexivity. }
  by rewrite Hfirst, Hsecond.
Qed.

(** The round trip of C4 on the Local and on the Shared backend, from a
    new instance. *)
Lemma memory_round_trip (e : Ext) (shared quiet : bool) (v : JSValue) (ttl : option Z)
    (now now' : Z) :
  typeof v ≠ TUndefined →
  let s0 := fresh (JStr (if shared then "shared" else "local")) e in
  let first := push now (JStr "k") v true ttl s0 in
  (first.1, (pull now' (JStr "k") quiet first.2).1) = (Resolved tt, Resolved v).
Proof.
  intros Hv s0 first.
  set (exp := if default 0 ttl <=? 0 then ExpNull else ExpDate (now + default 0 ttl * 1000)).
  pose (st1 := {[ "*" := {[ md5 "k" := mkEntry v exp ]} ]} : Storage).
  pose (put := λ (st : Storage) (s : State Ext),
          if shared then set_staticStorage st s else set_storage (Some st) s).
  assert (first = (Resolved tt, put st1 (set_namaspaceHash (Some "*") s0))) as Hfirst.
  { subst first s0 put st1 exp. destruct shared, ttl as [ttl|]; unfold push; simpl;
      try destruct (ttl <=? 0); simpl;
      (rewrite storage_push_new_namespace by apply lookup_empty); reflexivity. }
  rewrite Hfirst. simpl. f_equal.
  assert (exp ≠ ExpUndefined) by (subst exp; by destruct (default 0 ttl <=? 0)).
  subst s0 put. destruct shared; unfold pull; simpl;
    (erewrite storage_pull_ignores_expiry;
      [|apply lookup_insert_eq|apply lookup_singleton_eq|done|done]); reflexivity.
Qed.

End Memory.

(** ** The SQLite3 backend *)

(** The condition of [pull] and [has] holds of a row only if its
    [expire] is a date not before now: never if it is [NULL]. *)
Lemma where_live_needs_expire (now : Z) (ns k : string) (r : Row) :
  sql_where now (where_live ns k) r = true →
  col_namespace r = ns ∧ col_key r = k ∧ ∃ t, col_expire r = Some t ∧ datetime now ≤ t.
Proof.
  unfold sql_where, where_live. simpl.
  destruct (col_expire r) as [t|]; simpl;
    repeat case_bool_decide; simpl; try discriminate; eauto.
Qed.

Lemma sql_insert_replace_not_live (now : Z) (r : Row) (db db' : list Row) :
  col_expire r = None →
  sql_insert true r db = Some db' →
  sql_select_one now (where_live (col_namespace r) (col_key r)) db' = None.
Proof.
  intros Hexpire Hinsert. unfold sql_select_one.
  destruct (find _ db') as [r'|] eqn:Hfind; [|done]. exfalso.
  apply find_some in Hfind as [Hin Hlive].
  apply where_live_needs_expire in Hlive as (Hns & Hk & t & Ht & _).
  apply list_elem_of_In in Hin.
  assert (r' = r ∨ (r' ∈ db ∧ same_primary_key r r' = false)) as [->|[_ Hpk]].
  { unfold sql_insert in Hinsert. destruct (existsb (same_primary_key r) db) eqn:Hany.
    - simplify_eq. apply elem_of_app in Hin as [Hin|Hin].
      + apply list_elem_of_filter in Hin. naive_solver.
      + apply list_elem_of_singleton in Hin. by left.
    - simplify_eq. apply elem_of_app in Hin as [Hin|Hin].
      + right. split; [done|].
        destruct (same_primary_key r r') eqn:Hpk; [|done].
        assert (existsb (same_primary_key r) db = true); [|congruence].
        apply existsb_exists. exists r'. split; [by apply list_elem_of_In|done].
      + apply list_elem_of_singleton in Hin. by left. }
  - congruence.
  - unfold same_primary_key in Hpk. rewrite Hns, Hk in Hpk.
    by rewrite !bool_decide_eq_true_2 in Hpk by done.
Qed.

Section SQLite.
Context {Ext : Type} `{Collaborators Ext}.

(** C3, on the code.  With a database that holds, for the key ['k'], a
    row whose [expire] is [NULL] (what [push] writes without TTL), [pull]
    finds no element and [has] answers [false]. *)
Theorem sqlite_never_selects_row_without_expire
    (e : Ext) (text : string) (date : Z) (quiet : bool) :
  let s := set_sqliteConnection (Some [mkRow "*" (md5 "k") text 0 date None])
             (fresh (JStr "sqlite3") e) in
  ((pull 5000 (JStr "k") quiet s).1, (has 5000 (JStr "k") s).1)
  = (not_found quiet "No such element found.", Resolved false).
Proof.
  intros s. subst s. unfold pull, has. simpl.
  unfold sql_select_one, sql_where. simpl.
  rewrite !bool_decide_eq_true_2 by done. reflexivity.
Qed.

(** C4, on the code.  On the SQLite3 backend, whatever the database
    holds, a value that [JSON.stringify] serialises and that is pushed
    with [overwrite] and no TTL is not given back by [pull]: the promise
    is rejected, no such element was found. *)
Theorem sqlite_push_without_ttl_is_not_pulled
    (e : Ext) (db : list Row) (v : JSValue) (text : string) :
  JSON_stringify v = Some text →
  let s := set_sqliteConnection (Some db) (fresh (JStr "sqlite3") e) in
  let first := push 1000 (JStr "k") v true None s in
  let second := pull 2000 (JStr "k") false first.2 in
  (first.1, second.1) = (Resolved tt, Rejected (Message "No such element found.")).
Proof.
  intros Htext s first second.
  pose (row := mkRow "*" (md5 "k") text (if bool_decide (typeof v = TNumber) then 1 else 0)
                 (datetime 1000) None).
  destruct (sql_insert true row db) as [db'|] eqn:Hinsert.
  2:{ unfold sql_insert in Hinsert. by destruct (existsb _ db). }
  assert (first = (Resolved tt,
            set_sqliteConnection (Some db') (set_namaspaceHash (Some "*") s))) as Hfirst.
  { subst first s. unfold push. simpl. unfold sqlite_push. simpl.
    rewrite Htext. fold row. by rewrite Hinsert. }
  assert (second.1 = Rejected (Message "No such element found.")) as Hsecond.
  { subst second. rewrite Hfirst. subst s. unfold pull. simpl.
    pose proof (sql_insert_replace_not_live 2000 row db db' eq_refl Hinsert) as Hnone.
    simpl in Hnone. by rewrite Hnone. }
  by rewrite Hfirst, Hsecond.
Qed.

End SQLite.

(** C4, on an empty database and the string ['v']. *)
Lemma sqlite_push_without_ttl_is_not_pulled_example :
  let s := set_sqliteConnection (Some []) (fresh (JStr "sqlite3") ([] : list string)) in
  let first := push 1000 (JStr "k") (JStr "v") true None s in
  let second := pull 2000 (JStr "k") false first.2 in
  (first.1, second.1) = (Resolved tt, Rejected (Message "No such element found.")).
Proof.
  exact (sqlite_push_without_ttl_is_not_pulled [] [] (JStr "v") "v" eq_refl).
Defined.

(** ** The object of [pullMulti] *)

Lemma first_occurrences_elem (l : list string) (x : string) :
  x ∈ first_occurrences l ↔ x ∈ l.
Proof.
  induction l as [|a l IH]; simpl; [done|].
  rewrite !elem_of_cons, list_elem_of_filter, IH.
  destruct (decide (x = a)); naive_solver.
Qed.

Lemma first_occurrences_snoc (l : list string) (x : string) :
  first_occurrences (l ++ [x])
  = if decide (x ∈ l) then first_occurrences l else first_occurrences l ++ [x].
Proof.
  induction l as [|a l IH]; simpl.
  - destruct (decide (x ∈ [])) as [Hin|_]; [by apply elem_of_nil in Hin|done].
  - rewrite IH. destruct (decide (x ∈ l)) as [Hin|Hin].
    + rewrite decide_True by (by right). done.
    + rewrite filter_app. destruct (decide (x = a)) as [->|Hne].
      * rewrite decide_True by (by left).
        rewrite (filter_cons_False _ a []) by (intros Ha; by apply Ha).
        by rewrite filter_nil, app_nil_r.
      * rewrite decide_False by (rewrite elem_of_cons; naive_solver).
        rewrite (filter_cons_True _ x []) by done.
        by rewrite filter_nil.
Qed.

Lemma insert_index_names (n : N) (k : string) (v : JSValue) (data : Props) :
  (insert_index n k v data).*1 = insert_name n k data.*1.
Proof.
  induction data as [|[x w] data IH]; simpl; [done|].
  destruct (array_index x) as [m|]; [|done].
  destruct (m <? n)%N; simpl; [f_equal; exact IH|done].
Qed.

Lemma object_set_names_present (data : Props) (k : string) (v : JSValue) :
  k ≠ "__proto__" → k ∈ data.*1 → (object_set data k v).*1 = data.*1.
Proof.
  intros Hproto Hin. unfold object_set.
  rewrite bool_decide_eq_false_2, bool_decide_eq_true_2 by done.
  clear Hin. induction data as [|[x w] data IH]; csimpl; [done|].
  rewrite IH. by case_bool_decide; simplify_eq.
Qed.

Lemma object_set_names_new (data : Props) (k : string) (v : JSValue) :
  k ≠ "__proto__" → k ∉ data.*1 →
  (object_set data k v).*1
  = match array_index k with
    | Some n => insert_name n k data.*1
    | None => data.*1 ++ [k]
    end.
Proof.
  intros Hproto Hin. unfold object_set.
  rewrite !bool_decide_eq_false_2 by done.
  destruct (array_index k) as [n|].
  - apply insert_index_names.
  - by rewrite fmap_app.
Qed.

Lemma find_insert_index (n : N) (k k' : string) (v : JSValue) (data : Props) :
  k ∉ data.*1 →
  find (λ p, bool_decide (p.1 = k')) (insert_index n k v data)
  = if decide (k' = k) then Some (k, v) else find (λ p, bool_decide (p.1 = k')) data.
Proof.
  intros Hin. induction data as [|[x w] data IH]; simpl.
  - case_bool_decide; case_decide; naive_solver.
  - apply not_elem_of_cons in Hin as [Hx Hin]. simpl in Hx.
    assert (find (λ p, bool_decide (p.1 = k')) ((k, v) :: (x, w) :: data)
            = if decide (k' = k) then Some (k, v)
              else find (λ p, bool_decide (p.1 = k')) ((x, w) :: data)) as Hhead.
    { simpl. case_bool_decide; case_decide; naive_solver. }
    destruct (array_index x) as [m|]; [|exact Hhead].
    destruct (m <? n)%N; [|exact Hhead].
    simpl. rewrite IH by done.
    case_bool_decide; case_decide; naive_solver.
Qed.

Lemma find_update_other (data : Props) (k k' : string) (v : JSValue) :
  k' ≠ k →
  find (λ p, bool_decide (p.1 = k'))
    ((λ p, if bool_decide (p.1 = k) then (k, v) else p) <$> data)
  = find (λ p, bool_decide (p.1 = k')) data.
Proof.
  intros Hne. induction data as [|[x w] data IH]; csimpl; [done|].
  rewrite IH. destruct (decide (x = k)) as [->|Hx].
  - rewrite (bool_decide_eq_true_2 (k = k)) by done. simpl.
    by rewrite !(bool_decide_eq_false_2 (k = k')) by done.
  - by rewrite (bool_decide_eq_false_2 (x = k)) by done.
Qed.

Lemma find_update_same (data : Props) (k : string) (v : JSValue) :
  k ∈ data.*1 →
  find (λ p, bool_decide (p.1 = k))
    ((λ p, if bool_decide (p.1 = k) then (k, v) else p) <$> data)
  = Some (k, v).
Proof.
  induction data as [|[x w] data IH]; csimpl; intros Hin.
  - by apply elem_of_nil in Hin.
  - destruct (decide (x = k)) as [->|Hx].
    + rewrite (bool_decide_eq_true_2 (k = k)) by done. simpl.
      by rewrite (bool_decide_eq_true_2 (k = k)) by done.
    + rewrite (bool_decide_eq_false_2 (x = k)) by done. simpl.
      rewrite (bool_decide_eq_false_2 (x = k)) by done.
      apply IH. apply elem_of_cons in Hin as [?|?]; [congruence|done].
Qed.

Lemma find_snoc {A} (P : A → bool) (l : list A) (x : A) :
  find P (l ++ [x])
  = match find P l with Some y => Some y | None => if P x then Some x else None end.
Proof. induction l as [|a l IH]; simpl; [done|]. by destruct (P a). Qed.

Lemma object_get_object_set (data : Props) (k k' : string) (v : JSValue) :
  k ≠ "__proto__" →
  object_get (object_set data k v) k'
  = if decide (k' = k) then Some v else object_get data k'.
Proof.
  intros Hproto. unfold object_get, object_set.
  rewrite bool_decide_eq_false_2 by done.
  case_bool_decide as Hin.
  - destruct (decide (k' = k)) as [->|Hne].
    + by rewrite find_update_same.
    + by rewrite find_update_other.
  - destruct (array_index k) as [n|].
    + rewrite find_insert_index by done. by case_decide.
    + rewrite find_snoc. destruct (find _ data) as [p|] eqn:Hfind; simpl.
      * apply find_some in Hfind as [Hp Hk]. apply bool_decide_eq_true in Hk.
        rewrite decide_False; [done|]. intros ->. apply Hin.
        apply list_elem_of_fmap. exists p. split; [done|by apply list_elem_of_In].
      * case_bool_decide; case_decide; naive_solver.
Qed.

Lemma object_set_proto (data : Props) (v : JSValue) :
  object_set data "__proto__" v = data.
Proof. reflexivity. Qed.

Lemma filter_all {A} (P : A → Prop) `{∀ x, Decision (P x)} (l : list A) :
  Forall P l → filter P l = l.
Proof.
  induction 1 as [|x l Hx Hl IH]; [done|]. by rewrite filter_cons_True, IH.
Qed.

Lemma filter_none {A} (P : A → Prop) `{∀ x, Decision (P x)} (l : list A) :
  Forall (λ x, ¬ P x) l → filter P l = [].
Proof.
  induction 1 as [|x l Hx Hl IH]; [done|]. by rewrite filter_cons_False.
Qed.

Lemma Forall_filter_self {A} (P : A → Prop) `{∀ x, Decision (P x)} (l : list A) :
  Forall P (filter P l).
Proof. apply Forall_forall. intros x Hx. by apply list_elem_of_filter in Hx as [? _]. Qed.

Lemma collect_build (omitNotFound : bool) (keys elements : list JSValue) :
  collect omitNotFound keys elements = build (recorded omitNotFound keys elements).
Proof.
  unfold collect, build, recorded. generalize (@nil (string * JSValue)) as data.
  revert elements. induction keys as [|key keys IH]; intros elements data.
  - by destruct omitNotFound.
  - destruct elements as [|v elements]; [by destruct omitNotFound|].
    csimpl. destruct (decide (property_key key = "__proto__")) as [Hproto|Hproto].
    + rewrite filter_cons_False by (simpl; naive_solver).
      specialize (IH elements data). destruct omitNotFound; simpl in *.
      * rewrite <- IH. unfold object_set. rewrite bool_decide_eq_true_2 by done.
        by destruct (is_null v).
      * rewrite <- IH. unfold object_set. by rewrite bool_decide_eq_true_2 by done.
    + destruct omitNotFound; simpl.
      * destruct (is_null v) eqn:Hnull; simpl.
        -- rewrite filter_cons_False; [apply IH|].
           simpl. intros [_ Hv]. specialize (Hv eq_refl). congruence.
        -- rewrite filter_cons_True by done. simpl. apply IH.
      * rewrite filter_cons_True by done. simpl. apply IH.
Qed.

Lemma last_value_snoc (k k' : string) (v : JSValue) (pairs : Props) :
  last_value k' (pairs ++ [(k, v)])
  = if decide (k' = k) then Some v else last_value k' pairs.
Proof.
  unfold last_value. rewrite filter_app. destruct (decide (k' = k)) as [->|Hne].
  - rewrite (filter_cons_True _ (k, v) []) by done. by rewrite filter_nil, last_snoc.
  - rewrite (filter_cons_False _ (k, v) []) by (simpl; congruence).
    by rewrite filter_nil, app_nil_r.
Qed.

Lemma build_snoc (pairs : Props) (k : string) (v : JSValue) :
  build (pairs ++ [(k, v)]) = object_set (build pairs) k v.
Proof. unfold build. by rewrite foldl_app. Qed.

Lemma object_get_build (pairs : Props) (k : string) :
  Forall (λ p, p.1 ≠ "__proto__") pairs →
  object_get (build pairs) k = last_value k pairs.
Proof.
  induction pairs as [|[k' v] pairs IH] using rev_ind; intros Hproto; [reflexivity|].
  rewrite Forall_app, Forall_singleton in Hproto. destruct Hproto as [Hpairs Hlast].
  simpl in Hlast. rewrite build_snoc, last_value_snoc, object_get_object_set by exact Hlast.
  case_decide; [done|]. by apply IH.
Qed.

Lemma insert_name_indices (n : N) (k : string) (idx rest : list string) :
  array_index k = Some n →
  Forall indexed idx → Forall (λ x, ¬ indexed x) rest → StronglySorted index_le idx →
  ∃ idx', insert_name n k (idx ++ rest) = idx' ++ rest
          ∧ Forall indexed idx' ∧ StronglySorted index_le idx'
          ∧ ∀ x, x ∈ idx' ↔ x = k ∨ x ∈ idx.
Proof.
  intros Hk Hidx Hrest Hsorted.
  assert (indexed k) as Hindexed by (unfold indexed, is_array_index; by rewrite Hk).
  induction idx as [|a idx IH]; simpl.
  - exists [k]. split; [|split; [by apply Forall_singleton|split]].
    + destruct rest as [|x rest]; [done|]. simpl.
      apply Forall_cons in Hrest as [Hx _]. unfold indexed, is_array_index in Hx.
      by destruct (array_index x).
    + repeat constructor.
    + intros x. rewrite list_elem_of_singleton, elem_of_nil. naive_solver.
  - apply Forall_cons in Hidx as [Ha Hidx].
    apply StronglySorted_inv in Hsorted as [Hsorted Hle].
    destruct (array_index a) as [m|] eqn:Hm;
      [|by unfold indexed, is_array_index in Ha; rewrite Hm in Ha].
    destruct (N.ltb_spec m n) as [Hlt|Hge].
    + destruct (IH Hidx Hsorted) as (idx' & -> & Hidx' & Hsorted' & Hmem).
      exists (a :: idx'). split; [done|]. split; [by constructor|]. split.
      * constructor; [done|]. apply Forall_forall. intros x Hx.
        apply Hmem in Hx as [->|Hx].
        -- unfold index_le. rewrite Hm, Hk. simpl. lia.
        -- rewrite Forall_forall in Hle. by apply Hle.
      * intros x. rewrite !elem_of_cons, Hmem. naive_solver.
    + exists (k :: a :: idx). split; [done|]. split; [by repeat constructor|]. split.
      * constructor; [by constructor|]. constructor.
        -- unfold index_le. rewrite Hm, Hk. simpl. lia.
        -- eapply Forall_impl; [exact Hle|]. intros x. unfold index_le.
           rewrite Hm, Hk. simpl. lia.
      * intros x. rewrite !elem_of_cons. naive_solver.
Qed.

Lemma build_names (pairs : Props) :
  Forall (λ p, p.1 ≠ "__proto__") pairs →
  (∃ idx, (build pairs).*1 = idx ++ filter (λ x, ¬ indexed x) (first_occurrences pairs.*1)
          ∧ Forall indexed idx ∧ StronglySorted index_le idx)
  ∧ ∀ x, x ∈ (build pairs).*1 ↔ x ∈ pairs.*1.
Proof.
  induction pairs as [|[k v] pairs IH] using rev_ind; intros Hproto.
  - split; [|done]. exists []. repeat split; constructor.
  - rewrite Forall_app, Forall_singleton in Hproto. destruct Hproto as [Hpairs Hk].
    simpl in Hk. destruct (IH Hpairs) as [(idx & Hnames & Hidx & Hsorted) Hmem].
    rewrite build_snoc, fmap_app. csimpl. rewrite first_occurrences_snoc.
    destruct (decide (k ∈ pairs.*1)) as [Hin|Hin].
    + rewrite object_set_names_present by (by rewrite ?Hmem). split.
      * by exists idx.
      * intros x. rewrite elem_of_app, list_elem_of_singleton, Hmem. naive_solver.
    + rewrite object_set_names_new by (by rewrite ?Hmem).
      rewrite filter_app. destruct (array_index k) as [n|] eqn:Hindex.
      * assert (indexed k) by (unfold indexed, is_array_index; by rewrite Hindex).
        rewrite (filter_cons_False _ k []) by naive_solver.
        rewrite filter_nil, app_nil_r, Hnames.
        destruct (insert_name_indices n k idx
                    (filter (λ x, ¬ indexed x) (first_occurrences pairs.*1)))
          as (idx' & Hinsert & Hidx' & Hsorted' & Hmem'); [done..| |done|].
        { apply Forall_filter_self. }
        rewrite Hinsert. split; [by exists idx'|].
        intros x. rewrite !elem_of_app, Hmem', list_elem_of_singleton.
        rewrite <- Hmem, Hnames, elem_of_app. naive_solver.
      * assert (¬ indexed k) by (unfold indexed, is_array_index; by rewrite Hindex).
        rewrite (filter_cons_True _ k []) by done. rewrite filter_nil, Hnames. split.
        -- exists idx. by rewrite <- app_assoc.
        -- intros x. rewrite <- Hnames, !elem_of_app, Hmem. naive_solver.
Qed.

Section Aggregation.
Context {Ext : Type} `{Collaborators Ext}.

Lemma Promise_all_resolved {A} (requests : list (Outcome A)) (elements : list A) :
  Promise_all requests = Resolved elements → requests = Resolved <$> elements.
Proof.
  revert elements. induction requests as [|[a|r] requests IH]; intros elements Hall; simpl in *.
  - by simplify_eq.
  - destruct (Promise_all requests) as [l|]; [|done]. simplify_eq.
    csimpl. f_equal. by apply IH.
  - done.
Qed.

(** C8, as amended.  When every key is a non-empty string and every
    [pull] is resolved, [pullMulti] is resolved with an object built from
    the keys and the elements paired by position, the i-th element being
    what the i-th request was resolved with.  Under every name the object
    holds the element of the last pair recorded with that name: every
    pair when [omitNotFound] is not [true] (a [null] element is then
    present as [null]), the pairs whose element is not [null] otherwise;
    ['__proto__'] never becomes a property.  The names that are array
    indices come first, in ascending order, and the other names follow in
    the order of their first occurrence among the keys. *)
Theorem pullMulti_records_each_key_with_indices_first
    (now : Z) (keys : list JSValue) (quiet omitNotFound : bool) (s s' : State Ext)
    (requests : list (Outcome JSValue)) (elements : list JSValue) :
  keys ≠ [] →
  existsb invalid_key keys = false →
  run_requests (λ key, pull now key quiet) keys s = (requests, s') →
  Promise_all requests = Resolved elements →
  let data := collect omitNotFound keys elements in
  let pairs := recorded omitNotFound keys elements in
  pullMulti now (JArr keys) quiet omitNotFound s = (Resolved (JObj data), s')
  ∧ requests = Resolved <$> elements
  ∧ (∀ k, object_get data k = last_value k pairs)
  ∧ (∀ k, k ∈ data.*1 ↔ k ∈ pairs.*1)
  ∧ data.*1 = filter indexed data.*1
               ++ filter (λ k, ¬ indexed k) (first_occurrences pairs.*1)
  ∧ StronglySorted index_le (filter indexed data.*1).
Proof.
  intros Hkeys Hvalid Hrun Hall data pairs.
  assert (Forall (λ p, p.1 ≠ "__proto__") pairs) as Hproto.
  { apply Forall_forall. intros p Hp. subst pairs. unfold recorded in Hp.
    by apply list_elem_of_filter in Hp as [[? _] _]. }
  destruct (build_names pairs Hproto) as [(idx & Hnames & Hidx & Hsorted) Hmem].
  assert (data = build pairs) as Hdata by apply collect_build.
  assert (filter indexed data.*1 = idx) as Hfilter.
  { rewrite Hdata, Hnames, filter_app, filter_all by done.
    rewrite filter_none; [by rewrite app_nil_r|]. apply Forall_filter_self. }
  split; [|split; [|split; [|split; [|split]]]].
  - unfold pullMulti. destruct keys as [|key keys]; [done|].
    rewrite bool_decide_eq_false_2 by done. rewrite Hvalid, Hrun, Hall. done.
  - by apply Promise_all_resolved.
  - intros k. rewrite Hdata. by apply object_get_build.
  - by rewrite Hdata.
  - by rewrite Hfilter, Hdata.
  - by rewrite Hfilter.
Qed.

End Aggregation.

(** The example of the specification: after [pushMulti({a: 1, b: 2})],
    [pullMulti(['a', 'b', 'c'], true)] gives [{a: 1, b: 2, c: null}], and
    [{a: 1, b: 2}] with [omitNotFound]. *)
Lemma pullMulti_after_pushMulti :
  let s := (pushMulti 1000 (JObj [("a", JNum 1); ("b", JNum 2)]) true None
              (fresh JUndefined ([] : list string))).2 in
  let keys := JArr [JStr "a"; JStr "b"; JStr "c"] in
  ((pullMulti 2000 keys true false s).1, (pullMulti 2000 keys true true s).1)
  = (Resolved (JObj [("a", JNum 1); ("b", JNum 2); ("c", JNull)]),
     Resolved (JObj [("a", JNum 1); ("b", JNum 2)])).
Proof. vm_compute. reflexivity. Qed.

(** C8 as stated fails on the keys ['b'] and ['1']: the object lists
    ['1'] before ['b']. *)
Lemma pullMulti_lists_array_index_first :
  (pullMulti 3000 (JArr [JStr "b"; JStr "1"]) true false two_keys).1
  = Resolved (JObj [("1", JStr "y"); ("b", JStr "x")]).
Proof. vm_compute. reflexivity. Qed.

(** C8 as amended, on the keys ['b'], ['1'] and ['c'], the last of which
    was never pushed, in quiet mode and with [omitNotFound]. *)
Lemma pullMulti_records_each_key_example :
  let keys := [JStr "b"; JStr "1"; JStr "c"] in
  let elements := [JStr "x"; JStr "y"; JNull] in
  let data := collect true keys elements in
  let pairs := recorded true keys elements in
  pullMulti 3000 (JArr keys) true true two_keys = (Resolved (JObj data), two_keys)
  ∧ (run_requests (λ key, pull 3000 key true) keys two_keys).1 = Resolved <$> elements
  ∧ (∀ k, object_get data k = last_value k pairs)
  ∧ (∀ k, k ∈ data.*1 ↔ k ∈ pairs.*1)
  ∧ data.*1 = filter indexed data.*1
               ++ filter (λ k, ¬ indexed k) (first_occurrences pairs.*1)
  ∧ StronglySorted index_le (filter indexed data.*1).
Proof.
  apply (pullMulti_records_each_key_with_indices_first 3000
           [JStr "b"; JStr "1"; JStr "c"] true true two_keys two_keys
           (run_requests (λ key, pull 3000 key true) [JStr "b"; JStr "1"; JStr "c"] two_keys).1
           [JStr "x"; JStr "y"; JNull]).
  - discriminate.
  - reflexivity.
  - vm_compute. reflexivity.
  - vm_compute. reflexivity.
Defined.

(** * Properties of the rest of the class *)

(** ** The Local and Shared strategies

    Every single-key method, on these two strategies, is the function of
    the backend applied to the storage object that the strategy addresses. *)

Section MemoryView.
Context {Ext : Type} `{Collaborators Ext}.

Lemma invalid_key_string (k : string) : k ≠ "" → invalid_key (JStr k) = false.
Proof. intros Hk. unfold invalid_key. simpl. by apply bool_decide_eq_false. Qed.

Lemma createKey_string (k : string) (s : State Ext) :
  k ≠ "" →
  createKey (JStr k) s
  = (mkKey (namespace_hash s) (Some (md5 k))
       (Some ("tiny-cacher:" +:+ namespace_hash s +:+ ":" +:+ md5 k)),
     (createKey JNull s).2).
Proof.
  intros Hk. unfold namespace_hash, createKey.
  rewrite (invalid_key_string k Hk). reflexivity.
Qed.

Lemma in_memory_cases (s : State Ext) :
  in_memory s = true → getStrategy s = STRATEGY_LOCAL ∨ getStrategy s = STRATEGY_SHARED.
Proof.
  unfold in_memory. intros Hs. apply orb_prop in Hs as [Hs|Hs];
    apply bool_decide_eq_true in Hs; auto.
Qed.

Lemma createKey_state (key : JSValue) (s : State Ext) :
  ∃ h, (createKey key s).2 = set_namaspaceHash (Some h) s.
Proof.
  unfold createKey. destruct s as [? ? ? ? ? ? [h|] ? ? ? ? ? ? ? ?]; simpl.
  - destruct (bool_decide (h = "")); eauto.
  - eauto.
Qed.

Lemma prepared_local (s : State Ext) :
  getStrategy s = STRATEGY_LOCAL →
  init (createKey JNull s).2 = Some (prepared s)
  ∧ getStrategy (prepared s) = STRATEGY_LOCAL
  ∧ storage (prepared s) = Some (memory s).
Proof.
  intros Hs. unfold prepared, memory. rewrite Hs.
  destruct (createKey_state JNull s) as [h ->].
  destruct s as [? ? ? ? ? ? ? ? [st|] ? ? ? ? ? ?]; unfold init, getStrategy in *;
    simpl in *; rewrite Hs; simpl; done.
Qed.

Lemma prepared_shared (s : State Ext) :
  getStrategy s = STRATEGY_SHARED →
  init (createKey JNull s).2 = Some (prepared s)
  ∧ getStrategy (prepared s) = STRATEGY_SHARED
  ∧ staticStorage (prepared s) = memory s.
Proof.
  intros Hs. unfold prepared, memory. rewrite Hs.
  destruct (createKey_state JNull s) as [h ->].
  destruct s; unfold init, getStrategy in *; simpl in *; rewrite Hs; simpl; done.
Qed.

Ltac enter_memory Hs Hk :=
  let Hinit := fresh "Hinit" in
  let Hstrategy := fresh "Hstrategy" in
  let Hstorage := fresh "Hstorage" in
  rewrite (invalid_key_string _ Hk), (createKey_string _ _ Hk);
  unfold with_memory;
  apply in_memory_cases in Hs as [Hs|Hs];
  [destruct (prepared_local _ Hs) as (Hinit & Hstrategy & Hstorage)
  |destruct (prepared_shared _ Hs) as (Hinit & Hstrategy & Hstorage)];
  rewrite Hinit, ?Hs; simpl; rewrite Hstrategy; simpl; rewrite ?Hstorage.

Lemma push_in_memory (now : Z) (k : string) (v : JSValue) (overwrite : bool)
    (ttl : option Z) (s : State Ext) :
  in_memory s = true → k ≠ "" →
  push now (JStr k) v overwrite ttl s
  = let r := storage_push now (namespace_hash s) (md5 k) v overwrite (expiry now ttl s)
               (memory s) in
    (r.1, with_memory r.2 s).
Proof.
  intros Hs Hk. unfold push. enter_memory Hs Hk.
  - unfold expiry. destruct (_ <=? 0); by destruct (storage_push _ _ _ _ _ _ _).
  - unfold expiry. destruct (_ <=? 0); by destruct (storage_push _ _ _ _ _ _ _).
Qed.

Lemma pull_in_memory (now : Z) (k : string) (quiet : bool) (s : State Ext) :
  in_memory s = true → k ≠ "" →
  pull now (JStr k) quiet s
  = match storage_pull now (namespace_hash s) (md5 k) quiet (memory s) with
    | Some r => (r.1, with_memory r.2 s)
    | None => (Rejected TypeError, prepared s)
    end.
Proof.
  intros Hs Hk. unfold pull. enter_memory Hs Hk.
  - by destruct (storage_pull _ _ _ _ _) as [[o st]|].
  - by destruct (storage_pull _ _ _ _ _) as [[o st]|].
Qed.

Lemma has_in_memory (now : Z) (k : string) (s : State Ext) :
  in_memory s = true → k ≠ "" →
  has now (JStr k) s
  = (default (Rejected TypeError) (storage_has (namespace_hash s) (md5 k) (memory s)),
     prepared s).
Proof.
  intros Hs Hk. unfold has. enter_memory Hs Hk.
  - by destruct (storage_has _ _ _).
  - by destruct (storage_has _ _ _).
Qed.

Lemma remove_in_memory (k : string) (s : State Ext) :
  in_memory s = true → k ≠ "" →
  remove (JStr k) s
  = match storage_remove (namespace_hash s) (md5 k) (memory s) with
    | Some st => (Resolved tt, with_memory st s)
    | None => (Rejected TypeError, prepared s)
    end.
Proof.
  intros Hs Hk. unfold remove. enter_memory Hs Hk.
  - by destruct (storage_remove _ _ _).
  - by destruct (storage_remove _ _ _).
Qed.

Lemma increment_in_memory (k : string) (delta : Z) (s : State Ext) :
  in_memory s = true → k ≠ "" → delta ≠ 0 →
  increment (JStr k) (Some delta) s
  = (Resolved tt,
     with_memory (storage_increment (namespace_hash s) (md5 k) delta (memory s)) s).
Proof.
  intros Hs Hk Hdelta. unfold increment. cbv zeta.
  change (default 1 (Some delta)) with delta.
  rewrite (bool_decide_eq_false_2 (delta = 0)) by done.
  enter_memory Hs Hk; done.
Qed.

End MemoryView.

Section MemoryFacts.
Context {Ext : Type} `{Collaborators Ext}.

Lemma namespace_hash_fields (s : State Ext) :
  namespace_hash s = hash_of_fields (namaspaceHash s) (namespace s).
Proof.
  unfold namespace_hash, createKey, hash_of_fields, namespace_digest, getNamespace.
  destruct s as [? ? ? ? ? ? [h|] ? ? ? ? ? ? ? ?]; simpl; [|done].
  by destruct (bool_decide (h = "")).
Qed.

Lemma hash_of_fields_again (hash name : option string) :
  hash_of_fields (Some (hash_of_fields hash name)) name = hash_of_fields hash name.
Proof.
  unfold hash_of_fields.
  set (f := namespace_digest (default "" name)).
  destruct hash as [h|].
  - destruct (bool_decide (h = "")) eqn:Hh.
    + by destruct (bool_decide (f = "")).
    + by rewrite Hh.
  - by destruct (bool_decide (f = "")).
Qed.

Lemma createKey_hashed (key : JSValue) (s : State Ext) :
  (createKey key s).2 = set_namaspaceHash (Some (namespace_hash s)) s.
Proof.
  unfold namespace_hash, createKey.
  destruct s as [? ? ? ? ? ? [h|] ? ? ? ? ? ? ? ?]; simpl; [|done].
  by destruct (bool_decide (h = "")).
Qed.

Lemma view_fields (shared : bool) (hash : string) (st : Storage) (s : State Ext) :
  strategy (view shared hash st s) = strategy s
  ∧ namespace (view shared hash st s) = namespace s
  ∧ namaspaceHash (view shared hash st s) = Some hash
  ∧ defaultTTL (view shared hash st s) = defaultTTL s
  ∧ (if shared then staticStorage (view shared hash st s) = st
                    ∧ storage (view shared hash st s) = storage s
     else storage (view shared hash st s) = Some st
          ∧ staticStorage (view shared hash st s) = staticStorage s).
Proof. by destruct s, shared. Qed.

Lemma view_view (shared : bool) (hash : string) (st st' : Storage) (s : State Ext) :
  view shared hash st' (view shared hash st s) = view shared hash st' s.
Proof. by destruct s, shared. Qed.

Lemma prepared_view (s : State Ext) :
  in_memory s = true →
  prepared s
  = view (bool_decide (getStrategy s = STRATEGY_SHARED)) (namespace_hash s) (memory s) s.
Proof.
  intros Hs. unfold prepared. rewrite createKey_hashed.
  assert (getStrategy (set_namaspaceHash (Some (namespace_hash s)) s) = getStrategy s)
    as Hstrategy by (by destruct s).
  unfold init, memory. rewrite Hstrategy.
  generalize (namespace_hash s). intros hash.
  apply in_memory_cases in Hs as [Hs|Hs]; rewrite Hs; simpl.
  - by destruct s as [? ? ? ? ? ? ? ? [?|] ? ? ? ? ? ?].
  - by destruct s.
Qed.

Lemma with_memory_view (st : Storage) (s : State Ext) :
  in_memory s = true →
  with_memory st s
  = view (bool_decide (getStrategy s = STRATEGY_SHARED)) (namespace_hash s) st s.
Proof.
  intros Hs. unfold with_memory. rewrite prepared_view by done.
  generalize (namespace_hash s) (memory s). intros hash st0.
  destruct (bool_decide (getStrategy s = STRATEGY_SHARED)); by destruct s.
Qed.

Lemma with_memory_facts (st : Storage) (s : State Ext) :
  in_memory s = true →
  getStrategy (with_memory st s) = getStrategy s
  ∧ in_memory (with_memory st s) = true
  ∧ namespace_hash (with_memory st s) = namespace_hash s
  ∧ memory (with_memory st s) = st
  ∧ getDefaultTTL (with_memory st s) = getDefaultTTL s.
Proof.
  intros Hs. rewrite with_memory_view by done.
  set (shared := bool_decide (getStrategy s = STRATEGY_SHARED)).
  destruct (view_fields shared (namespace_hash s) st s)
    as (Hstrategy & Hname & Hhash & Httl & Hstorage).
  assert (getStrategy (view shared (namespace_hash s) st s) = getStrategy s) as Hsame
    by (unfold getStrategy; by rewrite Hstrategy).
  split; [done|]. split; [unfold in_memory in *; by rewrite Hsame|].
  split; [|split].
  - rewrite (namespace_hash_fields (view _ _ _ _)), Hhash, Hname, namespace_hash_fields.
    apply hash_of_fields_again.
  - unfold memory. rewrite Hsame. fold shared.
    destruct shared; destruct Hstorage as [Hst _]; by rewrite Hst.
  - unfold getDefaultTTL. by rewrite Httl.
Qed.

Lemma prepared_with_memory (s : State Ext) :
  in_memory s = true → prepared s = with_memory (memory s) s.
Proof. intros Hs. by rewrite prepared_view, with_memory_view. Qed.

Lemma with_memory_again (st st' : Storage) (s : State Ext) :
  in_memory s = true →
  with_memory st' (with_memory st s) = with_memory st' s.
Proof.
  intros Hs. destruct (with_memory_facts st s Hs) as (Hstrategy & Hin & Hhash & _).
  rewrite (with_memory_view st' (with_memory st s)) by done.
  rewrite Hstrategy, Hhash, !with_memory_view by done. apply view_view.
Qed.

End MemoryFacts.

(** ** Elements of a storage object *)

Lemma element_at_insert (st : Storage) (ns ns' k' : string) (bucket : Bucket) :
  element_at (<[ns := bucket]> st) ns' k'
  = if decide (ns' = ns) then bucket !! k' else element_at st ns' k'.
Proof.
  unfold element_at. destruct (decide (ns' = ns)) as [->|Hns].
  - by rewrite lookup_insert_eq.
  - by rewrite lookup_insert_ne.
Qed.

Lemma element_at_bucket (st : Storage) (ns k : string) (bucket : Bucket) :
  st !! ns = Some bucket → element_at st ns k = bucket !! k.
Proof. intros Hns. unfold element_at. by rewrite Hns. Qed.

Lemma element_at_no_bucket (st : Storage) (ns k : string) :
  st !! ns = None → element_at st ns k = None.
Proof. intros Hns. unfold element_at. by rewrite Hns. Qed.

(** [push]: resolved, the element is the one pushed; rejected, nothing
    changed; in both cases the other elements are as before. *)
Lemma storage_push_element (now : Z) (ns k : string) (v : JSValue) (overwrite : bool)
    (exp : Expire) (st : Storage) (ns' k' : string) :
  let r := storage_push now ns k v overwrite exp st in
  (r.1 = Resolved tt
   ∧ element_at r.2 ns' k'
     = if decide (ns' = ns ∧ k' = k) then Some (mkEntry v exp) else element_at st ns' k')
  ∨ (r.1 = Rejected (Message "This key already exists.") ∧ r.2 = st ∧ overwrite = false
     ∧ ∃ e, element_at st ns k = Some e ∧ already_exists e now = true).
Proof.
  unfold storage_push. 
  assert (∀ bucket, (st !! ns = Some bucket ∨ (st !! ns = None ∧ bucket = ∅)) →
            element_at (<[ns := <[k := mkEntry v exp]> bucket]> st) ns' k'
            = if decide (ns' = ns ∧ k' = k) then Some (mkEntry v exp)
              else element_at st ns' k') as Hstored.
  { intros bucket Hbucket. rewrite element_at_insert.
    destruct (decide (ns' = ns)) as [->|Hns].
    - destruct (decide (k' = k)) as [->|Hk].
      + rewrite decide_True by done. apply lookup_insert_eq.
      + rewrite decide_False by naive_solver. rewrite lookup_insert_ne by done.
        destruct Hbucket as [Hb|[Hb ->]].
        * by rewrite (element_at_bucket _ _ _ _ Hb).
        * by rewrite element_at_no_bucket, lookup_empty.
    - rewrite decide_False by naive_solver. done. }
  destruct (st !! ns) as [bucket|] eqn:Hns; simpl.
  - destruct (bucket !! k) as [e|] eqn:Hk; simpl.
    + destruct (negb overwrite && already_exists e now) eqn:Hguard; simpl.
      * right. apply andb_prop in Hguard as [Hoverwrite Hexists].
        apply negb_true_iff in Hoverwrite. repeat split; try done.
        exists e. by rewrite (element_at_bucket _ _ _ _ Hns).
      * left. split; [done|]. apply Hstored. by left.
    + left. split; [done|]. apply Hstored. by left.
  - left. split; [done|]. apply Hstored. by right.
Qed.

Lemma storage_push_overwrite_element (now : Z) (ns k : string) (v : JSValue)
    (exp : Expire) (st : Storage) (ns' k' : string) :
  let r := storage_push now ns k v true exp st in
  r.1 = Resolved tt
  ∧ element_at r.2 ns' k'
    = if decide (ns' = ns ∧ k' = k) then Some (mkEntry v exp) else element_at st ns' k'.
Proof.
  intros r. destruct (storage_push_element now ns k v true exp st ns' k')
    as [?|(_ & _ & ? & _)]; done.
Qed.

Lemma storage_push_other (now : Z) (ns k : string) (v : JSValue) (overwrite : bool)
    (exp : Expire) (st : Storage) (ns' k' : string) :
  ¬ (ns' = ns ∧ k' = k) →
  element_at (storage_push now ns k v overwrite exp st).2 ns' k' = element_at st ns' k'.
Proof.
  intros Hother. destruct (storage_push_element now ns k v overwrite exp st ns' k')
    as [[_ ->]|(_ & -> & _)]; [by rewrite decide_False|done].
Qed.

(** [pull] reads the element; the only change it can make is to delete
    it. *)
Lemma storage_pull_element (now : Z) (ns k : string) (quiet : bool) (st : Storage)
    (r : Outcome JSValue * Storage) (ns' k' : string) :
  storage_pull now ns k quiet st = Some r →
  element_at r.2 ns' k' = element_at st ns' k'
  ∨ (ns' = ns ∧ k' = k ∧ element_at r.2 ns' k' = None
     ∧ ∃ e, element_at st ns k = Some e ∧ expire e = ExpUndefined).
Proof.
  unfold storage_pull. intros Hpull.
  destruct (st !! ns) as [bucket|] eqn:Hns; [|done].
  destruct (bucket !! k) as [e|] eqn:Hk; [|left; by simplify_eq].
  destruct (negb (bool_decide (typeof (value e) = TUndefined))); [|left; by simplify_eq].
  destruct (expire_suspicious e) eqn:Hsuspicious; [|left; by simplify_eq].
  assert (expire e = ExpUndefined) as Hundefined.
  { unfold expire_suspicious in Hsuspicious. by destruct (expire e). }
  destruct (expire_not_null (expire e) && expire_lt (expire e) now); [|left; by simplify_eq].
  simplify_eq. simpl. rewrite element_at_insert.
  destruct (decide (ns' = ns)) as [->|Hne]; [|by left].
  destruct (decide (k' = k)) as [->|Hne].
  - right. rewrite lookup_delete_eq. repeat split; try done.
    exists e. by rewrite (element_at_bucket _ _ _ _ Hns).
  - left. rewrite lookup_delete_ne by done. by rewrite (element_at_bucket _ _ _ _ Hns).
Qed.

Lemma storage_pull_well_formed (now : Z) (ns k : string) (quiet : bool) (st : Storage) :
  well_formed st →
  storage_pull now ns k quiet st
  = match st !! ns with
    | None => None
    | Some _ =>
        Some (match element_at st ns k with
              | Some e => if bool_decide (typeof (value e) = TUndefined)
                          then not_found quiet "No such element found."
                          else Resolved (value e)
              | None => not_found quiet "No such element found."
              end, st)
    end.
Proof.
  intros Hwf. unfold storage_pull. destruct (st !! ns) as [bucket|] eqn:Hns; [|done].
  rewrite (element_at_bucket _ _ _ _ Hns).
  destruct (bucket !! k) as [e|] eqn:Hk; [|done].
  destruct (bool_decide (typeof (value e) = TUndefined)); simpl; [done|].
  assert (expire e ≠ ExpUndefined) as Hexpire.
  { apply (Hwf ns k). by rewrite (element_at_bucket _ _ _ _ Hns). }
  unfold expire_suspicious. by destruct (expire e).
Qed.

Lemma storage_has_well_formed (ns k : string) (st : Storage) :
  well_formed st →
  storage_has ns k st
  = match st !! ns with
    | None => None
    | Some _ =>
        Some (Resolved (match element_at st ns k with
                        | Some e => negb (bool_decide (typeof (value e) = TUndefined))
                        | None => false
                        end))
    end.
Proof.
  intros Hwf. unfold storage_has. destruct (st !! ns) as [bucket|] eqn:Hns; [|done].
  rewrite (element_at_bucket _ _ _ _ Hns).
  destruct (bucket !! k) as [e|] eqn:Hk; [|done].
  destruct (bool_decide (typeof (value e) = TUndefined)); simpl; [done|].
  assert (expire e ≠ ExpUndefined) as Hexpire.
  { apply (Hwf ns k). by rewrite (element_at_bucket _ _ _ _ Hns). }
  unfold expire_suspicious. by destruct (expire e).
Qed.

Lemma storage_remove_element (ns k : string) (st : Storage) (ns' k' : string) :
  match storage_remove ns k st with
  | Some st' =>
      is_Some (st !! ns) ∧ is_Some (st' !! ns)
      ∧ element_at st' ns' k'
        = if decide (ns' = ns ∧ k' = k) then None else element_at st ns' k'
  | None => st !! ns = None
  end.
Proof.
  unfold storage_remove. destruct (st !! ns) as [bucket|] eqn:Hns; [|done].
  destruct (bucket !! k) as [e|] eqn:Hk.
  - split; [done|]. split; [by rewrite lookup_insert_eq|]. rewrite element_at_insert.
    destruct (decide (ns' = ns)) as [->|Hne].
    + destruct (decide (k' = k)) as [->|Hne].
      * rewrite decide_True by done. apply lookup_delete_eq.
      * rewrite decide_False by naive_solver. rewrite lookup_delete_ne by done.
        by rewrite (element_at_bucket _ _ _ _ Hns).
    + by rewrite decide_False by naive_solver.
  - split; [done|]. split; [by rewrite Hns|].
    destruct (decide (ns' = ns ∧ k' = k)) as [[-> ->]|]; [|done].
    by rewrite (element_at_bucket _ _ _ _ Hns).
Qed.

Lemma storage_increment_element (ns k : string) (delta : Z) (st : Storage) (ns' k' : string) :
  element_at (storage_increment ns k delta st) ns' k'
  = if decide (ns' = ns ∧ k' = k) then add_to_value delta <$> element_at st ns k
    else element_at st ns' k'.
Proof.
  unfold storage_increment. destruct (st !! ns) as [bucket|] eqn:Hns.
  - destruct (bucket !! k) as [e|] eqn:Hk.
    + rewrite element_at_insert. destruct (decide (ns' = ns)) as [->|Hne].
      * destruct (decide (k' = k)) as [->|Hne].
        -- rewrite decide_True by done. rewrite lookup_insert_eq.
           by rewrite (element_at_bucket _ _ _ _ Hns), Hk.
        -- rewrite decide_False by naive_solver. rewrite lookup_insert_ne by done.
           by rewrite (element_at_bucket _ _ _ _ Hns).
      * by rewrite decide_False by naive_solver.
    + destruct (decide (ns' = ns ∧ k' = k)) as [[-> ->]|]; [|done].
      by rewrite (element_at_bucket _ _ _ _ Hns), Hk.
  - destruct (decide (ns' = ns ∧ k' = k)) as [[-> ->]|]; [|done].
    by rewrite element_at_no_bucket.
Qed.

(** Two storage objects with the same namespaces and the same elements
    are the same. *)
Lemma storage_eq (st st' : Storage) :
  (∀ ns, is_Some (st !! ns) ↔ is_Some (st' !! ns)) →
  (∀ ns k, element_at st ns k = element_at st' ns k) →
  st = st'.
Proof.
  intros Hdom Helements. apply map_eq. intros ns.
  specialize (Hdom ns). 
  destruct (st !! ns) as [b|] eqn:Hb, (st' !! ns) as [b'|] eqn:Hb'.
  - f_equal. apply map_eq. intros k. specialize (Helements ns k).
    unfold element_at in Helements. by rewrite Hb, Hb' in Helements.
  - destruct Hdom as [Hdom _]. by destruct Hdom.
  - destruct Hdom as [_ Hdom]. by destruct Hdom.
  - done.
Qed.

Section MemoryMethods.
Context {Ext : Type} `{Collaborators Ext}.

Lemma prepared_facts (s : State Ext) :
  in_memory s = true →
  in_memory (prepared s) = true
  ∧ namespace_hash (prepared s) = namespace_hash s
  ∧ memory (prepared s) = memory s
  ∧ getDefaultTTL (prepared s) = getDefaultTTL s.
Proof.
  intros Hs. rewrite prepared_with_memory by done.
  destruct (with_memory_facts (memory s) s Hs) as (_ & ? & ? & ? & ?). done.
Qed.

Lemma increment_by (k : string) (delta : option Z) (s : State Ext) :
  in_memory s = true → k ≠ "" →
  increment (JStr k) delta s
  = (Resolved tt,
     if bool_decide (default 1 delta = 0) then s
     else with_memory
            (storage_increment (namespace_hash s) (md5 k) (default 1 delta) (memory s)) s).
Proof.
  intros Hs Hk. case_bool_decide as Hdelta.
  - unfold increment. by rewrite (invalid_key_string _ Hk), bool_decide_eq_true_2.
  - destruct delta as [delta|].
    + by apply increment_in_memory.
    + by rewrite <- (increment_in_memory k 1 s Hs Hk).
Qed.

Lemma storage_increment_nothing (ns k : string) (st : Storage) :
  storage_increment ns k 0 st = st.
Proof.
  apply storage_eq.
  - intros ns'. unfold storage_increment.
    destruct (st !! ns) as [bucket|] eqn:Hns; [|done].
    destruct (bucket !! k); [|done].
    destruct (decide (ns' = ns)) as [->|Hne].
    + rewrite lookup_insert_eq, Hns. by split.
    + by rewrite lookup_insert_ne.
  - intros ns' k'. rewrite storage_increment_element.
    destruct (decide _) as [[-> ->]|]; [|done].
    destruct (element_at st ns k) as [e|]; [|done]. simpl. f_equal.
    unfold add_to_value. destruct e as [v exp]. simpl.
    destruct v; try done. by rewrite Z.add_0_r.
Qed.

(** The memory after [increment], whatever the delta. *)
Lemma increment_memory (k : string) (delta : option Z) (s : State Ext) :
  in_memory s = true → k ≠ "" →
  memory (increment (JStr k) delta s).2
  = storage_increment (namespace_hash s) (md5 k) (default 1 delta) (memory s).
Proof.
  intros Hs Hk. rewrite increment_by by done. simpl. case_bool_decide as Hdelta.
  - by rewrite Hdelta, storage_increment_nothing.
  - by destruct (with_memory_facts
      (storage_increment (namespace_hash s) (md5 k) (default 1 delta) (memory s)) s Hs)
      as (_ & _ & _ & ? & _).
Qed.


(** ** Reading an element that is there *)

Lemma read_element (now : Z) (k : string) (quiet : bool) (s : State Ext) (e : Entry) :
  in_memory s = true → k ≠ "" → element_of s k = Some e →
  typeof (value e) ≠ TUndefined → expire e ≠ ExpUndefined →
  (pull now (JStr k) quiet s).1 = Resolved (value e)
  ∧ (has now (JStr k) s).1 = Resolved true.
Proof.
  intros Hs Hk Helement Hv Hexpire.
  rewrite pull_in_memory, has_in_memory by done.
  unfold element_of, element_at in Helement.
  destruct (memory s !! namespace_hash s) as [bucket|] eqn:Hbucket; [|done].
  simpl in Helement. unfold storage_pull, storage_has. rewrite Hbucket, Helement.
  rewrite (bool_decide_eq_false_2 _ Hv). simpl.
  unfold expire_suspicious. by destruct (expire e).
Qed.

Lemma read_nothing (now : Z) (k : string) (quiet : bool) (s : State Ext) :
  in_memory s = true → k ≠ "" → is_Some (memory s !! namespace_hash s) →
  element_of s k = None →
  (pull now (JStr k) quiet s).1 = not_found quiet "No such element found."
  ∧ (has now (JStr k) s).1 = Resolved false.
Proof.
  intros Hs Hk [bucket Hbucket] Helement.
  rewrite pull_in_memory, has_in_memory by done.
  unfold element_of in Helement. rewrite (element_at_bucket _ _ _ _ Hbucket) in Helement.
  unfold storage_pull, storage_has. by rewrite Hbucket, Helement.
Qed.

End MemoryMethods.

Section MemoryTheorems.
Context {Ext : Type} `{Collaborators Ext}.

(** X1.
    On the Local and Shared strategies a value pushed is read back:
    [push] that overwrites is resolved; once [push] is resolved, [pull]
    gives the value and [has] gives [true], whatever the clock reads; a
    [push] that is not resolved was rejected because the key exists, and
    has changed nothing. *)
Theorem pushed_value_is_read_back (now later : Z) (k : string) (v : JSValue)
    (overwrite : bool) (ttl : option Z) (quiet : bool) (s : State Ext) :
  in_memory s = true → k ≠ "" → typeof v ≠ TUndefined →
  let pushed := push now (JStr k) v overwrite ttl s in
  (overwrite = true → pushed.1 = Resolved tt)
  ∧ (pushed.1 = Resolved tt →
     (pull later (JStr k) quiet pushed.2).1 = Resolved v
     ∧ (has later (JStr k) pushed.2).1 = Resolved true)
  ∧ (pushed.1 ≠ Resolved tt →
     pushed.1 = Rejected (Message "This key already exists.")
     ∧ memory pushed.2 = memory s).
Proof.
  intros Hs Hk Hv pushed. subst pushed. rewrite push_in_memory by done. cbv zeta.
  set (r := storage_push now (namespace_hash s) (md5 k) v overwrite (expiry now ttl s)
              (memory s)).
  cbn [fst snd].
  destruct (with_memory_facts r.2 s Hs) as (_ & Hin & Hhash & Hmemory & _).
  assert (expiry now ttl s ≠ ExpUndefined) as Hexpiry.
  { unfold expiry. by destruct (_ <=? 0). }
  pose proof (storage_push_element now (namespace_hash s) (md5 k) v overwrite
                (expiry now ttl s) (memory s) (namespace_hash s) (md5 k)) as Hpush.
  cbv zeta in Hpush. fold r in Hpush. rewrite decide_True in Hpush by done.
  split; [|split].
  - intros ->. by destruct (storage_push_overwrite_element now (namespace_hash s) (md5 k) v
      (expiry now ttl s) (memory s) (namespace_hash s) (md5 k)).
  - intros Hresolved. destruct Hpush as [[_ Helement]|[Hrejected _]]; [|congruence].
    rewrite pull_in_memory, has_in_memory by done. rewrite Hhash, Hmemory.
    unfold element_at in Helement.
    destruct (r.2 !! namespace_hash s) as [bucket|] eqn:Hbucket; [|done].
    simpl in Helement.
    unfold storage_pull, storage_has. rewrite Hbucket, Helement. simpl.
    rewrite (bool_decide_eq_false_2 _ Hv). simpl.
    unfold expire_suspicious. simpl.
    by destruct (expiry now ttl s).
  - intros Hrejected. destruct Hpush as [[? _]|(? & Hsame & _)]; [done|].
    by rewrite Hmemory.
Qed.

(** X2.
    On the Local and Shared strategies the single-key methods leave
    the elements of every other key and of every other namespace as they
    are. *)
Theorem single_key_methods_leave_other_elements (now : Z) (k : string) (v : JSValue)
    (overwrite quiet : bool) (ttl delta : option Z) (s : State Ext) (ns' k' : string) :
  in_memory s = true → k ≠ "" → ¬ (ns' = namespace_hash s ∧ k' = md5 k) →
  element_at (memory (push now (JStr k) v overwrite ttl s).2) ns' k'
    = element_at (memory s) ns' k'
  ∧ element_at (memory (pull now (JStr k) quiet s).2) ns' k' = element_at (memory s) ns' k'
  ∧ element_at (memory (has now (JStr k) s).2) ns' k' = element_at (memory s) ns' k'
  ∧ element_at (memory (increment (JStr k) delta s).2) ns' k' = element_at (memory s) ns' k'
  ∧ element_at (memory (remove (JStr k) s).2) ns' k' = element_at (memory s) ns' k'.
Proof.
  intros Hs Hk Hother.
  destruct (prepared_facts s Hs) as (_ & _ & Hprepared & _).
  assert (∀ st, memory (with_memory st s) = st) as Hmemory.
  { intros st. by destruct (with_memory_facts st s Hs) as (_ & _ & _ & ? & _). }
  repeat split.
  - rewrite push_in_memory by done. cbv zeta. cbn [snd]. rewrite Hmemory.
    by apply storage_push_other.
  - rewrite pull_in_memory by done.
    destruct (storage_pull _ _ _ _ _) as [r|] eqn:Hpull; cbn [snd].
    + rewrite Hmemory.
      destruct (storage_pull_element _ _ _ _ _ _ ns' k' Hpull) as [?|(? & ? & _)];
        [done|naive_solver].
    + by rewrite Hprepared.
  - rewrite has_in_memory by done. cbn [snd]. by rewrite Hprepared.
  - rewrite increment_memory, storage_increment_element by done.
    by rewrite decide_False.
  - rewrite remove_in_memory by done.
    pose proof (storage_remove_element (namespace_hash s) (md5 k) (memory s) ns' k')
      as Hremove.
    destruct (storage_remove _ _ _) as [st|]; cbn [snd].
    + rewrite Hmemory. destruct Hremove as (_ & _ & ->). by rewrite decide_False.
    + by rewrite Hprepared.
Qed.

(** X3.
    On the Local and Shared strategies, before anything was pushed
    under the namespace, the methods that read the object of the
    namespace throw a [TypeError]; [increment], which tests it first, is
    resolved.  Nothing changes. *)
Theorem unwritten_namespace_throws (now : Z) (k : string) (quiet : bool)
    (delta : option Z) (s : State Ext) :
  in_memory s = true → k ≠ "" → memory s !! namespace_hash s = None →
  (pull now (JStr k) quiet s).1 = Rejected TypeError
  ∧ (has now (JStr k) s).1 = Rejected TypeError
  ∧ (remove (JStr k) s).1 = Rejected TypeError
  ∧ (increment (JStr k) delta s).1 = Resolved tt
  ∧ memory (pull now (JStr k) quiet s).2 = memory s
  ∧ memory (has now (JStr k) s).2 = memory s
  ∧ memory (remove (JStr k) s).2 = memory s
  ∧ memory (increment (JStr k) delta s).2 = memory s.
Proof.
  intros Hs Hk Hnone.
  destruct (prepared_facts s Hs) as (_ & _ & Hprepared & _).
  rewrite increment_memory by done.
  rewrite pull_in_memory, has_in_memory, remove_in_memory, increment_by by done.
  unfold storage_pull, storage_has, storage_remove, storage_increment.
  rewrite Hnone. simpl. by rewrite Hprepared.
Qed.

(** X4.
    On the Local and Shared strategies, for a key without element in a
    namespace that was written: [pull] and [has] find nothing, [remove]
    and [increment] are resolved, and nothing changes. *)
Theorem missing_key_is_not_found (now : Z) (k : string) (quiet : bool)
    (delta : option Z) (s : State Ext) :
  in_memory s = true → k ≠ "" →
  is_Some (memory s !! namespace_hash s) → element_of s k = None →
  (pull now (JStr k) quiet s).1 = not_found quiet "No such element found."
  ∧ (has now (JStr k) s).1 = Resolved false
  ∧ (remove (JStr k) s).1 = Resolved tt
  ∧ (increment (JStr k) delta s).1 = Resolved tt
  ∧ memory (pull now (JStr k) quiet s).2 = memory s
  ∧ memory (has now (JStr k) s).2 = memory s
  ∧ memory (remove (JStr k) s).2 = memory s
  ∧ memory (increment (JStr k) delta s).2 = memory s.
Proof.
  intros Hs Hk [bucket Hbucket] Hnone. unfold element_of in Hnone.
  rewrite (element_at_bucket _ _ _ _ Hbucket) in Hnone.
  destruct (prepared_facts s Hs) as (_ & _ & Hprepared & _).
  assert (∀ st, memory (with_memory st s) = st) as Hmemory.
  { intros st. by destruct (with_memory_facts st s Hs) as (_ & _ & _ & ? & _). }
  rewrite increment_memory by done.
  rewrite pull_in_memory, has_in_memory, remove_in_memory, increment_by by done.
  unfold storage_pull, storage_has, storage_remove, storage_increment.
  rewrite Hbucket, Hnone. simpl. by rewrite Hprepared, Hmemory.
Qed.

(** X5.
    On the Local and Shared strategies [remove] deletes the element of
    the key: [has] and [pull] no longer find it, and a second [remove]
    is resolved and changes nothing. *)
Theorem removed_key_is_gone (now : Z) (k : string) (quiet : bool) (s : State Ext) :
  in_memory s = true → k ≠ "" → is_Some (memory s !! namespace_hash s) →
  let removed := remove (JStr k) s in
  removed.1 = Resolved tt
  ∧ element_of removed.2 k = None
  ∧ (has now (JStr k) removed.2).1 = Resolved false
  ∧ (pull now (JStr k) quiet removed.2).1 = not_found quiet "No such element found."
  ∧ (remove (JStr k) removed.2).1 = Resolved tt
  ∧ memory (remove (JStr k) removed.2).2 = memory removed.2.
Proof.
  intros Hs Hk Hbucket removed.
  assert (removed.1 = Resolved tt ∧ in_memory removed.2 = true
          ∧ is_Some (memory removed.2 !! namespace_hash removed.2)
          ∧ element_of removed.2 k = None) as (Hresolved & Hin & Hwritten & Hgone).
  { subst removed. rewrite remove_in_memory by done.
    pose proof (storage_remove_element (namespace_hash s) (md5 k) (memory s)
                  (namespace_hash s) (md5 k)) as Hremove.
    destruct (storage_remove _ _ _) as [st|].
    - cbn [fst snd]. destruct (with_memory_facts st s Hs) as (_ & ? & Hhash & Hmemory & _).
      unfold element_of. rewrite Hhash, Hmemory.
      destruct Hremove as (_ & ? & ->). by rewrite decide_True.
    - rewrite Hremove in Hbucket. by destruct Hbucket. }
  destruct (read_nothing now k quiet removed.2 Hin Hk Hwritten Hgone) as [Hpull Hhas].
  split; [done|]. split; [done|]. split; [done|]. split; [done|].
  destruct Hwritten as [bucket Hthere]. unfold element_of in Hgone.
  rewrite (element_at_bucket _ _ _ _ Hthere) in Hgone.
  destruct (prepared_facts removed.2 Hin) as (_ & _ & Hprepared & _).
  rewrite remove_in_memory by done. unfold storage_remove. rewrite Hthere, Hgone.
  cbn [fst snd]. split; [done|].
  by destruct (with_memory_facts (memory removed.2) removed.2 Hin) as (_ & _ & _ & ? & _).
Qed.



End MemoryTheorems.

(** A value pushed with a TTL of a minute on a new instance, and read
    after ninety seconds. *)
Lemma pushed_value_is_read_back_example :
  let pushed := push 1000 (JStr "k") (JStr "v") true (Some 60)
                  (fresh JUndefined ([] : list string)) in
  pushed.1 = Resolved tt
  ∧ (pull 91000 (JStr "k") false pushed.2).1 = Resolved (JStr "v")
  ∧ (has 91000 (JStr "k") pushed.2).1 = Resolved true.
Proof.
  destruct (pushed_value_is_read_back 1000 91000 "k" (JStr "v") true (Some 60) false
              (fresh JUndefined ([] : list string)) eq_refl ltac:(done) ltac:(done))
    as (Hpushed & Hread & _).
  exact (conj (Hpushed eq_refl) (Hread (Hpushed eq_refl))).
Defined.

(** The methods on the key ['b'] leave the element of the key ['1']. *)
Lemma single_key_methods_leave_other_elements_example :
  element_at (memory (push 3000 (JStr "b") (JStr "z") true None two_keys).2) "*" "#1"
    = element_at (memory two_keys) "*" "#1"
  ∧ element_at (memory (pull 3000 (JStr "b") false two_keys).2) "*" "#1"
    = element_at (memory two_keys) "*" "#1"
  ∧ element_at (memory (has 3000 (JStr "b") two_keys).2) "*" "#1"
    = element_at (memory two_keys) "*" "#1"
  ∧ element_at (memory (increment (JStr "b") None two_keys).2) "*" "#1"
    = element_at (memory two_keys) "*" "#1"
  ∧ element_at (memory (remove (JStr "b") two_keys).2) "*" "#1"
    = element_at (memory two_keys) "*" "#1".
Proof.
  apply (single_key_methods_leave_other_elements 3000 "b" (JStr "z") true false None None
           two_keys "*" "#1").
  - reflexivity.
  - done.
  - vm_compute. by intros [_ ?].
Defined.

(** A new instance, before any [push]. *)
Lemma unwritten_namespace_throws_example :
  let s := fresh JUndefined ([] : list string) in
  (pull 1000 (JStr "k") true s).1 = Rejected TypeError
  ∧ (has 1000 (JStr "k") s).1 = Rejected TypeError
  ∧ (remove (JStr "k") s).1 = Rejected TypeError
  ∧ (increment (JStr "k") None s).1 = Resolved tt
  ∧ memory (pull 1000 (JStr "k") true s).2 = memory s
  ∧ memory (has 1000 (JStr "k") s).2 = memory s
  ∧ memory (remove (JStr "k") s).2 = memory s
  ∧ memory (increment (JStr "k") None s).2 = memory s.
Proof.
  apply (unwritten_namespace_throws 1000 "k" true None (fresh JUndefined ([] : list string))).
  - reflexivity.
  - done.
  - reflexivity.
Defined.

(** The key ['c'] after ['b'] and ['1'] were pushed. *)
Lemma missing_key_is_not_found_example :
  (pull 3000 (JStr "c") false two_keys).1 = Rejected (Message "No such element found.")
  ∧ (has 3000 (JStr "c") two_keys).1 = Resolved false
  ∧ (remove (JStr "c") two_keys).1 = Resolved tt
  ∧ (increment (JStr "c") None two_keys).1 = Resolved tt
  ∧ memory (pull 3000 (JStr "c") false two_keys).2 = memory two_keys
  ∧ memory (has 3000 (JStr "c") two_keys).2 = memory two_keys
  ∧ memory (remove (JStr "c") two_keys).2 = memory two_keys
  ∧ memory (increment (JStr "c") None two_keys).2 = memory two_keys.
Proof.
  apply (missing_key_is_not_found 3000 "c" false None two_keys).
  - reflexivity.
  - done.
  - vm_compute. by eexists.
  - reflexivity.
Defined.

(** The key ['b'] removed twice. *)
Lemma removed_key_is_gone_example :
  let removed := remove (JStr "b") two_keys in
  removed.1 = Resolved tt
  ∧ element_of removed.2 "b" = None
  ∧ (has 3000 (JStr "b") removed.2).1 = Resolved false
  ∧ (pull 3000 (JStr "b") true removed.2).1 = Resolved JNull
  ∧ (remove (JStr "b") removed.2).1 = Resolved tt
  ∧ memory (remove (JStr "b") removed.2).2 = memory removed.2.
Proof.
  apply (removed_key_is_gone 3000 "b" true two_keys).
  - reflexivity.
  - done.
  - vm_compute. by eexists.
Defined.



Lemma well_formed_checked (st : Storage) : well_formed_check st = true → well_formed st.
Proof.
  intros Hcheck ns k e Helement. apply bool_decide_eq_true in Hcheck.
  unfold element_at in Helement.
  destruct (st !! ns) as [bucket|] eqn:Hbucket; [|done]. simpl in Helement.
  pose proof (Hcheck ns bucket Hbucket k e Helement) as Hdefined.
  unfold expire_defined in Hdefined. by destruct (expire e).
Qed.

Section MemoryReads.
Context {Ext : Type} `{Collaborators Ext}.

Lemma well_formed_empty : well_formed ∅.
Proof. intros ns k e Helement. unfold element_at in Helement. by rewrite lookup_empty in Helement. Qed.

Lemma well_formed_sweep (now : Z) (st : Storage) : well_formed st → well_formed (sweep now st).
Proof.
  intros Hwf ns k e. rewrite element_at_sweep. unfold survivor.
  destruct (element_at st ns k) as [e'|] eqn:He'; [|done]. simpl.
  specialize (Hwf ns k e' He').
  destruct (expire e') eqn:Hexpire; try case_bool_decide; intros; simplify_eq; congruence.
Qed.

Lemma has_holds (now : Z) (k : string) (s : State Ext) :
  in_memory s = true → k ≠ "" → well_formed (memory s) →
  is_Some (memory s !! namespace_hash s) →
  has now (JStr k) s = (Resolved (holds s k), prepared s).
Proof.
  intros Hs Hk Hwf [bucket Hbucket].
  rewrite has_in_memory, storage_has_well_formed by done.
  by rewrite Hbucket.
Qed.

Lemma pull_holds (now : Z) (k : string) (quiet : bool) (s : State Ext) :
  in_memory s = true → k ≠ "" → well_formed (memory s) →
  is_Some (memory s !! namespace_hash s) →
  pull now (JStr k) quiet s
  = (match element_of s k with
     | Some e => if holds s k then Resolved (value e)
                 else not_found quiet "No such element found."
     | None => not_found quiet "No such element found."
     end, prepared s).
Proof.
  intros Hs Hk Hwf [bucket Hbucket].
  rewrite pull_in_memory, storage_pull_well_formed by done.
  rewrite Hbucket. cbn [fst snd]. rewrite <- prepared_with_memory by done.
  f_equal. unfold holds, element_of.
  destruct (element_at _ _ _) as [e|]; [|done].
  by destruct (bool_decide _).
Qed.

(** X8.
    On the Local and Shared strategies [pull] and [has] answer from the
    value of the element alone, whatever the clock reads: [has] tells
    whether [pull] finds a value, and neither changes the storage. *)
Theorem reads_agree_and_change_nothing (now later : Z) (k : string) (quiet : bool)
    (s : State Ext) :
  in_memory s = true → k ≠ "" → well_formed (memory s) →
  is_Some (memory s !! namespace_hash s) →
  (has now (JStr k) s).1 = Resolved (holds s k)
  ∧ (holds s k = true → ∃ e, element_of s k = Some e
                            ∧ (pull later (JStr k) quiet s).1 = Resolved (value e))
  ∧ (holds s k = false →
       (pull later (JStr k) quiet s).1 = not_found quiet "No such element found.")
  ∧ memory (has now (JStr k) s).2 = memory s
  ∧ memory (pull later (JStr k) quiet s).2 = memory s.
Proof.
  intros Hs Hk Hwf Hbucket.
  destruct (prepared_facts s Hs) as (_ & _ & Hprepared & _).
  rewrite has_holds, pull_holds by done. cbn [fst snd].
  repeat split; try done.
  - intros Hholds. rewrite Hholds. unfold holds in Hholds.
    destruct (element_of s k) as [e|]; [by exists e|done].
  - intros Hholds. rewrite Hholds. by destruct (element_of s k).
Qed.

(** X9.
    On the Local and Shared strategies every element the methods store
    has an [expire] property, and the collectors keep it so: the branches
    of [pull] and [has] for a malformed or expired element are never
    taken. *)
Theorem methods_keep_elements_well_formed (now : Z) (k : string) (v : JSValue)
    (overwrite quiet : bool) (ttl delta : option Z) (s : State Ext) :
  in_memory s = true → k ≠ "" → well_formed (memory s) →
  well_formed (memory (push now (JStr k) v overwrite ttl s).2)
  ∧ well_formed (memory (pull now (JStr k) quiet s).2)
  ∧ well_formed (memory (has now (JStr k) s).2)
  ∧ well_formed (memory (increment (JStr k) delta s).2)
  ∧ well_formed (memory (remove (JStr k) s).2)
  ∧ well_formed (memory (runGarbageCollector now s))
  ∧ well_formed (memory (Static.runGlobalGarbageCollector now s))
  ∧ (pull now (JStr k) quiet s).1 ≠ Rejected (Message "Element has expired.")
  ∧ (pull now (JStr k) quiet s).1 ≠ Rejected (Message "Malformed element.")
  ∧ (has now (JStr k) s).1 ≠ Rejected ReferenceError.
Proof.
  intros Hs Hk Hwf.
  destruct (prepared_facts s Hs) as (_ & _ & Hprepared & _).
  assert (∀ st, memory (with_memory st s) = st) as Hmemory.
  { intros st. by destruct (with_memory_facts st s Hs) as (_ & _ & _ & ? & _). }
  assert (∀ o, memory (match storage_pull now (namespace_hash s) (md5 k) quiet (memory s) with
               | Some r => (r.1, with_memory r.2 s)
               | None => (o, prepared s)
               end).2 = memory s) as Hpull.
  { intros o. rewrite storage_pull_well_formed by done.
    destruct (memory s !! namespace_hash s); cbn [snd]; by rewrite ?Hmemory. }
  split; [|split; [|split; [|split; [|split; [|split; [|split; [|split; [|split]]]]]]]].
  - rewrite push_in_memory by done. cbv zeta. cbn [snd]. rewrite Hmemory.
    intros ns' k' e.
    destruct (storage_push_element now (namespace_hash s) (md5 k) v overwrite
                (expiry now ttl s) (memory s) ns' k') as [[_ ->]|(_ & -> & _)];
      [|apply Hwf].
    destruct (decide _); [|apply Hwf]. intros. simplify_eq. simpl.
    unfold expiry. by destruct (_ <=? 0).
  - rewrite pull_in_memory by done. by rewrite Hpull.
  - rewrite has_in_memory by done. cbn [snd]. by rewrite Hprepared.
  - rewrite increment_memory by done. intros ns' k' e.
    rewrite storage_increment_element. destruct (decide _); [|apply Hwf].
    destruct (element_at _ _ _) as [[v' exp]|] eqn:Helement; [|done].
    specialize (Hwf _ _ _ Helement). simpl in Hwf. simpl. intros [= <-].
    unfold add_to_value. simpl. destruct v'; exact Hwf.
  - rewrite remove_in_memory by done.
    destruct (storage_remove _ _ _) as [st|] eqn:Hremove; cbn [snd].
    + rewrite Hmemory. intros ns' k' e.
      pose proof (storage_remove_element (namespace_hash s) (md5 k) (memory s) ns' k')
        as Helement.
      rewrite Hremove in Helement. destruct Helement as (_ & _ & ->).
      destruct (decide _); [done|apply Hwf].
    + by rewrite Hprepared.
  - unfold memory, runGarbageCollector in *.
    destruct s as [? ? ? ? ? ? ? ? [st|] ? ? ? ? ? ?]; simpl in *; [|done].
    destruct (bool_decide _); [done|]. simpl. by apply well_formed_sweep.
  - unfold memory, Static.runGlobalGarbageCollector in *.
    destruct s as [? ? ? ? ? ? ? ? st ? ? ? ? ? ?]; simpl in *.
    destruct (bool_decide _); [|done]. by apply well_formed_sweep.
  - rewrite pull_in_memory, storage_pull_well_formed by done.
    destruct (memory s !! namespace_hash s); cbn [fst];
      [|by destruct quiet].
    destruct (element_at _ _ _) as [e|]; [destruct (bool_decide _)|]; by destruct quiet.
  - rewrite pull_in_memory, storage_pull_well_formed by done.
    destruct (memory s !! namespace_hash s); cbn [fst];
      [|by destruct quiet].
    destruct (element_at _ _ _) as [e|]; [destruct (bool_decide _)|]; by destruct quiet.
  - rewrite has_in_memory, storage_has_well_formed by done.
    by destruct (memory s !! namespace_hash s).
Qed.

Lemma run_has (now : Z) (ks : list string) (s s' : State Ext) :
  in_memory s = true → well_formed (memory s) →
  is_Some (memory s !! namespace_hash s) → Forall (λ k, k ≠ "") ks →
  in_memory s' = true → namespace_hash s' = namespace_hash s → memory s' = memory s →
  (run_requests (has now) (JStr <$> ks) s').1 = (λ k, Resolved (holds s k)) <$> ks.
Proof.
  intros Hs Hwf Hbucket Hks. revert s'.
  induction Hks as [|k ks Hk Hks IH]; intros s' Hs' Hhash Hmemory; [done|].
  csimpl. rewrite has_holds by (try done; by rewrite ?Hhash, Hmemory).
  destruct (prepared_facts s' Hs') as (Hin & Hhash' & Hmemory' & _).
  specialize (IH (prepared s') Hin). 
  destruct (run_requests (has now) (JStr <$> ks) (prepared s')) as [os s''].
  cbn [fst] in *. f_equal.
  - unfold holds, element_of. by rewrite Hhash, Hmemory.
  - apply IH; congruence.
Qed.

Lemma Promise_all_fmap {A} (elements : list A) :
  Promise_all (Resolved <$> elements) = Resolved elements.
Proof. induction elements as [|a elements IH]; [done|]. csimpl. by rewrite IH. Qed.

Lemma invalid_key_strings (ks : list string) :
  Forall (λ k, k ≠ "") ks → existsb invalid_key (JStr <$> ks) = false.
Proof.
  induction 1 as [|k ks Hk Hks IH]; [done|]. csimpl.
  by rewrite (invalid_key_string _ Hk), IH.
Qed.

(** X10.
    On the Local and Shared strategies [hasAll] gives the conjunction
    of what [has] gives for each key, and [hasMulti] records what [has]
    gives under each key. *)
Theorem hasAll_is_the_conjunction_of_has (now : Z) (ks : list string) (s : State Ext) :
  in_memory s = true → well_formed (memory s) →
  is_Some (memory s !! namespace_hash s) → Forall (λ k, k ≠ "") ks →
  Forall (λ k, (has now (JStr k) s).1 = Resolved (holds s k)) ks
  ∧ (hasAll now (JArr (JStr <$> ks)) s).1 = Resolved (forallb (holds s) ks)
  ∧ (hasMulti now (JArr (JStr <$> ks)) s).1
    = Resolved (JObj (build (filter (λ p, p.1 ≠ "__proto__")
                               (zip ks (JBool <$> (holds s <$> ks)))))).
Proof.
  intros Hs Hwf Hbucket Hks.
  pose proof (run_has now ks s s Hs Hwf Hbucket Hks Hs eq_refl eq_refl) as Hrun.
  pose proof (invalid_key_strings ks Hks) as Hvalid.
  assert ((λ k, Resolved (holds s k)) <$> ks = Resolved <$> (holds s <$> ks)) as Hcompose
    by (by rewrite <- list_fmap_compose).
  rewrite Hcompose in Hrun.
  split; [|split].
  - eapply Forall_impl; [exact Hks|]. intros k Hk. cbv beta. by rewrite has_holds.
  - unfold hasAll. destruct ks as [|k ks]; [done|].
    rewrite bool_decide_eq_false_2 by done. rewrite Hvalid.
    destruct (run_requests (has now) (JStr <$> k :: ks) s) as [os s'].
    cbn [fst] in Hrun. rewrite Hrun, Promise_all_fmap. cbn [fst].
    f_equal. generalize (k :: ks). intros l. induction l as [|x l IH]; [done|].
    csimpl. by rewrite IH.
  - unfold hasMulti. destruct ks as [|k ks]; [done|].
    rewrite bool_decide_eq_false_2 by done. rewrite Hvalid.
    destruct (run_requests (has now) (JStr <$> k :: ks) s) as [os s'].
    cbn [fst] in Hrun. rewrite Hrun, Promise_all_fmap. cbn [fst].
    rewrite collect_build. do 3 f_equal. unfold recorded.
    rewrite <- list_fmap_compose.
    assert (property_key ∘ JStr = id) as -> by done. rewrite list_fmap_id.
    apply list_filter_iff. intros [name v]. simpl. naive_solver.
Qed.

End MemoryReads.

(** The key ['b'], which is there. *)
Lemma reads_agree_and_change_nothing_example :
  (has 3000 (JStr "b") two_keys).1 = Resolved true
  ∧ (pull 9000 (JStr "b") false two_keys).1 = Resolved (JStr "x")
  ∧ memory (has 3000 (JStr "b") two_keys).2 = memory two_keys
  ∧ memory (pull 9000 (JStr "b") false two_keys).2 = memory two_keys.
Proof.
  destruct (reads_agree_and_change_nothing 3000 9000 "b" false two_keys eq_refl
              ltac:(done) ltac:(apply well_formed_checked; vm_compute; reflexivity)
              ltac:(vm_compute; by eexists))
    as (Hhas & Hpull & _ & Hsame & Hsame').
  destruct (Hpull eq_refl) as (e & He & Hvalue).
  assert (e = mkEntry (JStr "x") ExpNull) as -> by (vm_compute in He; congruence).
  exact (conj Hhas (conj Hvalue (conj Hsame Hsame'))).
Defined.

(** The storage with the keys ['b'] and ['1'], and the key ['b']. *)
Lemma methods_keep_elements_well_formed_example :
  well_formed (memory (push 3000 (JStr "b") (JStr "z") false (Some 60) two_keys).2)
  ∧ well_formed (memory (pull 3000 (JStr "b") false two_keys).2)
  ∧ well_formed (memory (has 3000 (JStr "b") two_keys).2)
  ∧ well_formed (memory (increment (JStr "b") None two_keys).2)
  ∧ well_formed (memory (remove (JStr "b") two_keys).2)
  ∧ well_formed (memory (runGarbageCollector 3000 two_keys))
  ∧ well_formed (memory (Static.runGlobalGarbageCollector 3000 two_keys))
  ∧ (pull 3000 (JStr "b") false two_keys).1 ≠ Rejected (Message "Element has expired.")
  ∧ (pull 3000 (JStr "b") false two_keys).1 ≠ Rejected (Message "Malformed element.")
  ∧ (has 3000 (JStr "b") two_keys).1 ≠ Rejected ReferenceError.
Proof.
  apply (methods_keep_elements_well_formed 3000 "b" (JStr "z") false false (Some 60) None
           two_keys).
  - reflexivity.
  - done.
  - apply well_formed_checked. vm_compute. reflexivity.
Defined.

(** The keys ['b'] and ['1'], which are there, and ['c'], which is not. *)
Lemma hasAll_is_the_conjunction_of_has_example :
  (hasAll 3000 (JArr [JStr "b"; JStr "1"]) two_keys).1 = Resolved true
  ∧ (hasAll 3000 (JArr [JStr "b"; JStr "c"; JStr "1"]) two_keys).1 = Resolved false
  ∧ (hasMulti 3000 (JArr [JStr "b"; JStr "c"; JStr "1"]) two_keys).1
    = Resolved (JObj [("1", JBool true); ("b", JBool true); ("c", JBool false)]).
Proof.
  assert (well_formed (memory two_keys)) as Hwf
    by (apply well_formed_checked; vm_compute; reflexivity).
  assert (is_Some (memory two_keys !! namespace_hash two_keys)) as Hbucket
    by (vm_compute; by eexists).
  destruct (hasAll_is_the_conjunction_of_has 3000 ["b"; "1"] two_keys eq_refl Hwf Hbucket
              ltac:(by repeat constructor)) as (_ & Hall & _).
  destruct (hasAll_is_the_conjunction_of_has 3000 ["b"; "c"; "1"] two_keys eq_refl Hwf Hbucket
              ltac:(by repeat constructor)) as (_ & Hnot & Hmulti).
  exact (conj Hall (conj Hnot Hmulti)).
Defined.

Section MemoryBatches.
Context {Ext : Type} `{Collaborators Ext}.





(** The storage after the removals of [removeMulti]. *)
Lemma run_remove (ks : list string) (s : State Ext) :
  in_memory s = true → is_Some (memory s !! namespace_hash s) →
  Forall (λ k, k ≠ "") ks →
  let run := run_requests remove (JStr <$> ks) s in
  run.1 = Resolved <$> (const tt <$> ks)
  ∧ namespace_hash run.2 = namespace_hash s
  ∧ ∀ ns h, element_at (memory run.2) ns h
            = if decide (ns = namespace_hash s ∧ h ∈ md5 <$> ks) then None
              else element_at (memory s) ns h.
Proof.
  intros Hs Hbucket Hks. revert s Hs Hbucket.
  induction Hks as [|k ks Hk Hks IH]; intros s Hs Hbucket.
  - split; [done|]. split; [done|]. intros ns h. rewrite decide_False; [done|].
    intros [_ Hin]. by apply elem_of_nil in Hin.
  - cbn [fmap list_fmap run_requests]. rewrite remove_in_memory by done.
    pose proof (storage_remove_element (namespace_hash s) (md5 k) (memory s)) as Hremove.
    destruct (storage_remove _ _ _) as [st|].
    + destruct (with_memory_facts st s Hs) as (_ & Hin & Hhash & Hmemory & _).
      specialize (IH (with_memory st s) Hin). rewrite Hhash, Hmemory in IH.
      destruct (Hremove "" "") as (_ & Hstill & _).
      specialize (IH Hstill). cbv zeta in IH.
      change (list_fmap string JSValue JStr ks) with (JStr <$> ks).
      destruct (run_requests remove (JStr <$> ks) (with_memory st s)) as [os s'].
      cbn [fst snd] in *. destruct IH as (-> & Hhash' & Helements).
      split; [done|]. split; [done|]. intros ns h. rewrite Helements.
      destruct (Hremove ns h) as (_ & _ & ->).
      change (list_fmap string string md5 ks) with (md5 <$> ks).
      repeat case_decide; try done; exfalso; rewrite ?elem_of_cons in *; naive_solver.
    + specialize (Hremove "" ""). rewrite Hremove in Hbucket. by destruct Hbucket.
Qed.

(** X12.
    On the Local and Shared strategies [removeMulti] removes the
    elements of the keys, and only them. *)
Theorem removeMulti_removes_the_keys (ks : list string) (s : State Ext) :
  in_memory s = true → is_Some (memory s !! namespace_hash s) →
  Forall (λ k, k ≠ "") ks →
  let removed := removeMulti (JArr (JStr <$> ks)) s in
  removed.1 = Resolved (if bool_decide (ks = []) then JObj [] else JUndefined)
  ∧ (∀ ns h, element_at (memory removed.2) ns h
             = if decide (ns = namespace_hash s ∧ h ∈ md5 <$> ks) then None
               else element_at (memory s) ns h)
  ∧ Forall (λ k, element_of removed.2 k = None) ks.
Proof.
  intros Hs Hbucket Hks removed.
  destruct (run_remove ks s Hs Hbucket Hks) as (Houtcomes & Hhash & Helements).
  pose proof (invalid_key_strings ks Hks) as Hvalid.
  assert (removed.1 = Resolved (if bool_decide (ks = []) then JObj [] else JUndefined)
          ∧ removed.2 = (run_requests remove (JStr <$> ks) s).2) as [Hresolved Hstate].
  { subst removed. unfold removeMulti. destruct ks as [|k ks]; [done|].
    rewrite bool_decide_eq_false_2 by done. rewrite Hvalid.
    destruct (run_requests remove (JStr <$> k :: ks) s) as [os s']. cbn [fst snd] in *.
    by rewrite Houtcomes, Promise_all_fmap. }
  split; [done|]. rewrite Hstate. split; [done|].
  apply Forall_forall. intros k Hk. unfold element_of.
  rewrite Hhash, Helements. apply decide_True. split; [done|].
  apply list_elem_of_fmap. by exists k.
Qed.

End MemoryBatches.


(** The keys ['b'] and ['c'] removed from the storage with ['b'] and
    ['1']. *)
Lemma removeMulti_removes_the_keys_example :
  let removed := removeMulti (JArr [JStr "b"; JStr "c"]) two_keys in
  removed.1 = Resolved JUndefined
  ∧ element_at (memory removed.2) "*" "#1" = Some (mkEntry (JStr "y") ExpNull)
  ∧ Forall (λ k, element_of removed.2 k = None) ["b"; "c"].
Proof.
  destruct (removeMulti_removes_the_keys ["b"; "c"] two_keys eq_refl
              ltac:(vm_compute; by eexists) ltac:(by repeat constructor))
    as (Hremoved & Helements & Hgone).
  split; [exact Hremoved|]. split; [exact (Helements "*" "#1")|exact Hgone].
Defined.

(** ** The SQLite3 strategy *)

Section SQLiteView.
Context {Ext : Type} `{Collaborators Ext}.

Lemma prepared_sqlite (s : State Ext) (db : list Row) :
  getStrategy s = STRATEGY_SQLITE3 → sqliteConnection s = Some db →
  prepared s = set_namaspaceHash (Some (namespace_hash s)) s
  ∧ init (createKey JNull s).2 = Some (prepared s)
  ∧ getStrategy (prepared s) = STRATEGY_SQLITE3
  ∧ sqliteConnection (prepared s) = Some db.
Proof.
  intros Hs Hdb. unfold prepared. rewrite createKey_hashed.
  generalize (namespace_hash s). intros h.
  destruct s; unfold init, getStrategy in *; simpl in *. rewrite Hs. simpl. by rewrite Hdb.
Qed.

Lemma with_database_facts (db' : list Row) (s : State Ext) (db : list Row) :
  getStrategy s = STRATEGY_SQLITE3 → sqliteConnection s = Some db →
  getStrategy (with_database db' s) = STRATEGY_SQLITE3
  ∧ sqliteConnection (with_database db' s) = Some db'
  ∧ namespace_hash (with_database db' s) = namespace_hash s
  ∧ getDefaultTTL (with_database db' s) = getDefaultTTL s
  ∧ ext (with_database db' s) = ext s.
Proof.
  intros Hs Hdb. unfold with_database.
  destruct (prepared_sqlite s db Hs Hdb) as (-> & _).
  rewrite (namespace_hash_fields (set_sqliteConnection _ _)), (namespace_hash_fields s).
  generalize (hash_of_fields_again (namaspaceHash s) (namespace s)).
  generalize (hash_of_fields (namaspaceHash s) (namespace s)). intros h Hh.
  destruct s; unfold getStrategy, getDefaultTTL in *; simpl in *. done.
Qed.


Ltac enter_sqlite Hs Hdb Hk :=
  let Hinit := fresh "Hinit" in
  let Hstrategy := fresh "Hstrategy" in
  let Hconnection := fresh "Hconnection" in
  rewrite (invalid_key_string _ Hk), (createKey_string _ _ Hk);
  destruct (prepared_sqlite _ _ Hs Hdb) as (_ & Hinit & Hstrategy & Hconnection);
  rewrite Hinit; simpl; rewrite Hstrategy; simpl.


Lemma pull_sqlite (now : Z) (k : string) (quiet : bool) (s : State Ext) (db : list Row) :
  getStrategy s = STRATEGY_SQLITE3 → sqliteConnection s = Some db → k ≠ "" →
  pull now (JStr k) quiet s
  = (match sql_select_one now (where_live (namespace_hash s) (md5 k)) db with
     | None => not_found quiet "No such element found."
     | Some element =>
         match JSON_parse (col_value element) with
         | Some v => Resolved v
         | None => Rejected (Message "An error occurred while parsing the serialised data.")
         end
     end, prepared s).
Proof.
  intros Hs Hdb Hk. unfold pull. enter_sqlite Hs Hdb Hk. rewrite Hconnection.
  destruct (sql_select_one _ _ _) as [element|]; [|done].
  by destruct (JSON_parse _).
Qed.

Lemma has_sqlite (now : Z) (k : string) (s : State Ext) (db : list Row) :
  getStrategy s = STRATEGY_SQLITE3 → sqliteConnection s = Some db → k ≠ "" →
  has now (JStr k) s
  = (Resolved (bool_decide
                 (is_Some (sql_select_one now (where_live (namespace_hash s) (md5 k)) db))),
     prepared s).
Proof.
  intros Hs Hdb Hk. unfold has. enter_sqlite Hs Hdb Hk. rewrite Hconnection.
  by destruct (sql_select_one _ _ _) as [element|].
Qed.

Lemma remove_sqlite (k : string) (s : State Ext) (db : list Row) :
  getStrategy s = STRATEGY_SQLITE3 → sqliteConnection s = Some db → k ≠ "" →
  remove (JStr k) s
  = (Resolved tt,
     with_database
       (sql_delete 0 (SqlAnd (NamespaceEq (namespace_hash s)) (KeyEq (md5 k))) db) s).
Proof.
  intros Hs Hdb Hk. unfold remove. enter_sqlite Hs Hdb Hk. by rewrite Hconnection.
Qed.

(** Where a select on the key finds its row. *)
Lemma where_live_row (now : Z) (ns k : string) (r : Row) :
  sql_where now (where_live ns k) r
  = bool_decide (col_namespace r = ns) && bool_decide (col_key r = k)
    && match col_expire r with Some t => bool_decide (datetime now ≤ t) | None => false end.
Proof.
  unfold sql_where, where_live. simpl.
  destruct (col_expire r) as [t|]; simpl; repeat case_bool_decide; done.
Qed.

Lemma find_none {A} (P : A → bool) (l : list A) :
  Forall (λ x, P x = false) l → find P l = None.
Proof. induction 1 as [|x l Hx Hl IH]; [done|]. simpl. by rewrite Hx. Qed.


End SQLiteView.

Section SQLiteTheorems.
Context {Ext : Type} `{Collaborators Ext} `{Scans Ext}.







(** X16.
    [invalidate] on SQLite3 deletes the rows of the namespace, or all
    rows; no key of the namespace is found afterwards. *)
Theorem sqlite_invalidate_empties_the_namespace (fuel : nat) (all : bool) (now : Z)
    (k : string) (quiet : bool) (s : State Ext) (db : list Row) :
  getStrategy s = STRATEGY_SQLITE3 → sqliteConnection s = Some db → k ≠ "" →
  ∃ s', invalidate fuel all s = Some (Settled (Resolved tt), s')
    ∧ database s'
      = (if all then [] else filter (λ r, col_namespace r ≠ namespace_hash s) db)
    ∧ (has now (JStr k) s').1 = Resolved false
    ∧ (pull now (JStr k) quiet s').1 = not_found quiet "No such element found.".
Proof.
  intros Hs Hdb Hk.
  set (db' := if all then [] else filter (λ r, col_namespace r ≠ namespace_hash s) db).
  exists (with_database db' s).
  destruct (with_database_facts db' s db Hs Hdb) as (Hs' & Hdb' & Hhash & _).
  assert (sql_select_one now (where_live (namespace_hash s) (md5 k)) db' = None) as Hnone.
  { apply find_none. apply Forall_forall. intros r Hr. rewrite where_live_row.
    subst db'. destruct all; [by apply elem_of_nil in Hr|].
    apply list_elem_of_filter in Hr as [Hr _].
    by rewrite (bool_decide_eq_false_2 _ Hr). }
  split; [|split; [|split]].
  - unfold invalidate.
    assert (createKey JNull s = (mkKey (namespace_hash s) None None, (createKey JNull s).2))
      as -> by done.
    destruct (prepared_sqlite s db Hs Hdb) as (_ & -> & Hstrategy & Hconnection).
    rewrite Hstrategy. simpl. rewrite Hconnection. unfold with_database. subst db'.
    destruct all; [done|]. do 4 f_equal. unfold sql_delete, sql_where. simpl.
    apply list_filter_iff. intros r. case_bool_decide; naive_solver.
  - unfold database. by rewrite Hdb'.
  - rewrite (has_sqlite _ _ _ db') by done. cbn [fst]. rewrite Hhash, Hnone.
    rewrite bool_decide_eq_false_2; [done|]. by intros [? ?].
  - rewrite (pull_sqlite _ _ _ _ db') by done. cbn [fst]. by rewrite Hhash, Hnone.
Qed.

End SQLiteTheorems.




(** [invalidate()] on the table with the expired row. *)
Lemma sqlite_invalidate_empties_the_namespace_example :
  ∃ s', invalidate 0 false expired_row = Some (Settled (Resolved tt), s')
    ∧ database s'
      = filter (λ r, col_namespace r ≠ namespace_hash expired_row)
          [mkRow "*" "#k" "old" 0 0 (Some 1)]
    ∧ (has 5000 (JStr "k") s').1 = Resolved false
    ∧ (pull 5000 (JStr "k") true s').1 = Resolved JNull.
Proof.
  apply (sqlite_invalidate_empties_the_namespace 0 false 5000 "k" true expired_row
           [mkRow "*" "#k" "old" 0 0 (Some 1)]).
  - reflexivity.
  - reflexivity.
  - done.
Defined.

(** ** [invalidate], initialisation and the drivers *)

Section OtherMethods.
Context {Ext : Type} `{Collaborators Ext} `{Scans Ext}.

Lemma createKey_null (s : State Ext) :
  createKey JNull s = (mkKey (namespace_hash s) None None, (createKey JNull s).2).
Proof. done. Qed.

Lemma invalidate_in_memory (fuel : nat) (all : bool) (s : State Ext) :
  in_memory s = true →
  invalidate fuel all s
  = Some (Settled (Resolved tt),
          with_memory (if all then ∅ else <[namespace_hash s := ∅]> (memory s)) s).
Proof.
  intros Hs. unfold invalidate. rewrite createKey_null. unfold with_memory.
  apply in_memory_cases in Hs as [Hs|Hs].
  - destruct (prepared_local _ Hs) as (Hinit & Hstrategy & Hstorage).
    rewrite Hinit, Hs. simpl. rewrite Hstrategy. simpl. rewrite Hstorage. by destruct all.
  - destruct (prepared_shared _ Hs) as (Hinit & Hstrategy & Hstorage).
    rewrite Hinit, Hs. simpl. rewrite Hstrategy. simpl. rewrite Hstorage. by destruct all.
Qed.

(** X17.
    [invalidate] on the Local and Shared strategies: the namespace is
    emptied, and reads find nothing; with [all] the storage object is
    made anew, without the namespace, and reads throw until the next
    [push]. *)
Theorem invalidate_empties_the_memory (fuel : nat) (all : bool) (now : Z) (k : string)
    (quiet : bool) (s : State Ext) :
  in_memory s = true → k ≠ "" →
  ∃ s', invalidate fuel all s = Some (Settled (Resolved tt), s')
    ∧ (∀ ns h, element_at (memory s') ns h
               = if all || bool_decide (ns = namespace_hash s) then None
                 else element_at (memory s) ns h)
    ∧ (has now (JStr k) s').1 = (if all then Rejected TypeError else Resolved false)
    ∧ (pull now (JStr k) quiet s').1
      = (if all then Rejected TypeError else not_found quiet "No such element found.").
Proof.
  intros Hs Hk.
  set (st := if all then ∅ else <[namespace_hash s := ∅]> (memory s)).
  exists (with_memory st s).
  destruct (with_memory_facts st s Hs) as (_ & Hin & Hhash & Hmemory & _).
  split; [by apply invalidate_in_memory|]. split; [|split].
  - intros ns h. rewrite Hmemory. subst st. destruct all; simpl.
    + unfold element_at. by rewrite lookup_empty.
    + rewrite element_at_insert. case_bool_decide as Hns.
      * rewrite decide_True by done. apply lookup_empty.
      * by rewrite decide_False.
  - rewrite has_in_memory by done. cbn [fst]. rewrite Hhash, Hmemory.
    unfold storage_has. subst st. destruct all.
    + by rewrite lookup_empty.
    + by rewrite lookup_insert_eq, lookup_empty.
  - rewrite pull_in_memory by done. rewrite Hhash, Hmemory.
    unfold storage_pull. subst st. destruct all.
    + by rewrite lookup_empty.
    + by rewrite lookup_insert_eq, lookup_empty.
Qed.

Lemma prepared_remote (s : State Ext) :
  in_memory s = false → is_Some (init s) →
  prepared s = set_namaspaceHash (Some (namespace_hash s)) s
  ∧ init (createKey JNull s).2 = Some (prepared s)
  ∧ getStrategy (prepared s) = getStrategy s
  ∧ ext (prepared s) = ext s
  ∧ storagePath (prepared s) = storagePath s.
Proof.
  intros Hs [s' Hinit]. unfold prepared. rewrite createKey_hashed.
  generalize (namespace_hash s). intros h.
  assert (init (set_namaspaceHash (Some h) s) = Some (set_namaspaceHash (Some h) s)) as ->.
  { unfold in_memory in Hs. apply orb_false_elim in Hs as [Hlocal Hshared].
    apply bool_decide_eq_false in Hlocal, Hshared.
    assert (getStrategy (set_namaspaceHash (Some h) s) = getStrategy s) as Hsame
      by (by destruct s).
    unfold init in *. rewrite Hsame.
    rewrite (bool_decide_eq_false_2 _ Hshared) in *.
    pose proof (getStrategy_range s) as Hrange. simpl in Hrange.
    assert (redisConnection (set_namaspaceHash (Some h) s) = redisConnection s
            ∧ memcachedConnection (set_namaspaceHash (Some h) s) = memcachedConnection s
            ∧ sqliteConnection (set_namaspaceHash (Some h) s) = sqliteConnection s
            ∧ storagePath (set_namaspaceHash (Some h) s) = storagePath s)
      as (-> & -> & -> & ->) by (by destruct s).
    repeat case_bool_decide.
    - by destruct (redisConnection s).
    - by destruct (memcachedConnection s).
    - by destruct (sqliteConnection s).
    - destruct (storagePath s) as [path|]; [|done]. by destruct (bool_decide (path = "")).
    - unfold STRATEGY_LOCAL, STRATEGY_SHARED, STRATEGY_REDIS, STRATEGY_MEMCACHED,
        STRATEGY_SQLITE3, STRATEGY_FILE in *. naive_solver. }
  simpl. by destruct s.
Qed.

Lemma init_throws (h : option string) (s : State Ext) :
  init s = None → init (set_namaspaceHash h s) = None.
Proof.
  intros Hinit.
  assert (getStrategy (set_namaspaceHash h s) = getStrategy s) as Hsame by (by destruct s).
  assert (redisConnection (set_namaspaceHash h s) = redisConnection s
          ∧ memcachedConnection (set_namaspaceHash h s) = memcachedConnection s
          ∧ sqliteConnection (set_namaspaceHash h s) = sqliteConnection s
          ∧ storagePath (set_namaspaceHash h s) = storagePath s
          ∧ storage (set_namaspaceHash h s) = storage s)
    as (Hredis & Hmemcached & Hsqlite & Hpath & Hstorage) by (by destruct s).
  unfold init in *. rewrite Hsame, Hredis, Hmemcached, Hsqlite, Hpath, Hstorage.
  repeat case_bool_decide; try done.
  - by destruct (redisConnection s).
  - by destruct (memcachedConnection s).
  - by destruct (sqliteConnection s).
  - destruct (storagePath s) as [path|]; [|done]. by destruct (bool_decide (path = "")).
  - by destruct (storage s).
Qed.

(** X18.
    When [init] throws, every method is rejected with the same message,
    and nothing but the hash of the namespace has changed: no driver was
    called. *)
Theorem methods_reject_when_init_throws (now : Z) (k : string) (v : JSValue)
    (overwrite quiet all : bool) (ttl delta : option Z) (fuel : nat) (s : State Ext) :
  init s = None → k ≠ "" → default 1 delta ≠ 0 →
  let message := "An error occurred while initialising the storage." in
  let s' := set_namaspaceHash (Some (namespace_hash s)) s in
  push now (JStr k) v overwrite ttl s = reject message s'
  ∧ pull now (JStr k) quiet s = reject message s'
  ∧ has now (JStr k) s = reject message s'
  ∧ increment (JStr k) delta s = reject message s'
  ∧ remove (JStr k) s = reject message s'
  ∧ invalidate fuel all s = Some (Settled (Rejected (Message message)), s')
  ∧ runSQLite3GarbageCollector now s = reject message s
  ∧ ext s' = ext s.
Proof.
  intros Hinit Hk Hdelta message s'.
  assert (init s' = None) as Hthrows by (by apply init_throws).
  unfold push, pull, has, increment, remove, invalidate, runSQLite3GarbageCollector.
  rewrite (invalid_key_string _ Hk), (createKey_string _ _ Hk), createKey_null.
  rewrite createKey_hashed. rewrite (bool_decide_eq_false_2 _ Hdelta).
  cbv beta iota zeta. cbn [snd]. fold s'. rewrite Hthrows, Hinit.
  repeat split; try done. by destruct s.
Qed.

(** X19.
    A value that [JSON.stringify] refuses is rejected by [push] on
    Redis, SQLite3 and files before any driver is called. *)
Theorem push_rejects_unserialisable_value_first (now : Z) (k : string) (v : JSValue)
    (overwrite : bool) (ttl : option Z) (s : State Ext) :
  JSON_stringify v = None → k ≠ "" → is_Some (init s) →
  getStrategy s = STRATEGY_REDIS ∨ getStrategy s = STRATEGY_SQLITE3
    ∨ getStrategy s = STRATEGY_FILE →
  push now (JStr k) v overwrite ttl s
  = (Rejected (Message "Unable to serialise the given value as JSON string."),
     set_namaspaceHash (Some (namespace_hash s)) s).
Proof.
  intros Hv Hk Hinit Hs.
  assert (in_memory s = false) as Hremote.
  { unfold in_memory, STRATEGY_LOCAL, STRATEGY_SHARED, STRATEGY_REDIS, STRATEGY_SQLITE3,
      STRATEGY_FILE in *. apply orb_false_intro; apply bool_decide_eq_false; lia. }
  destruct (prepared_remote s Hremote Hinit) as (Hprepared & Hinit' & Hstrategy & _).
  unfold push. rewrite (invalid_key_string _ Hk), (createKey_string _ _ Hk).
  cbv zeta. rewrite Hinit', Hstrategy, <- Hprepared.
  unfold redis_push, sqlite_push, file_push. rewrite Hv.
  unfold STRATEGY_SHARED, STRATEGY_REDIS, STRATEGY_MEMCACHED, STRATEGY_SQLITE3,
    STRATEGY_FILE in *.
  destruct Hs as [-> | [-> | ->]]; done.
Qed.


Lemma remote_strategy (s : State Ext) :
  getStrategy s = STRATEGY_REDIS ∨ getStrategy s = STRATEGY_MEMCACHED
    ∨ getStrategy s = STRATEGY_FILE →
  in_memory s = false.
Proof.
  unfold in_memory, STRATEGY_LOCAL, STRATEGY_SHARED, STRATEGY_REDIS, STRATEGY_MEMCACHED,
    STRATEGY_FILE.
  intros Hs. apply orb_false_intro; apply bool_decide_eq_false; lia.
Qed.

(** X21.
    [invalidate] on Redis with no key to delete: the promise is
    neither resolved nor rejected, and no [del] is sent. *)
Theorem redis_invalidate_without_keys_never_settles (fuel : nat) (all : bool)
    (s : State Ext) (e : Ext) :
  getStrategy s = STRATEGY_REDIS → redisConnection s = true →
  redis_keys (if all then "tiny-cacher:*" else "tiny-cacher:" +:+ namespace_hash s +:+ ":*")
    (ext s) = (Some [], e) →
  invalidate fuel all s
  = Some (Pending, set_ext e (set_namaspaceHash (Some (namespace_hash s)) s)).
Proof.
  intros Hs Hconnection Hkeys.
  assert (is_Some (init s)) as Hinit.
  { unfold init. rewrite Hs, Hconnection. by eexists. }
  destruct (prepared_remote s (remote_strategy s (or_introl Hs)) Hinit)
    as (Hprepared & Hinit' & Hstrategy & Hext & _).
  unfold invalidate. rewrite createKey_null. rewrite Hinit', Hstrategy, Hs. simpl.
  rewrite Hext, Hkeys. simpl. by rewrite Hprepared.
Qed.

(** X22.
    Redis, Memcached and files do not look at the clock of the class:
    what [push], [pull] and [has] do there is the same at any time; on
    files the TTL is ignored as well. *)
Theorem remote_strategies_ignore_the_clock (now later : Z) (k : string) (v : JSValue)
    (overwrite quiet : bool) (ttl ttl' : option Z) (s : State Ext) :
  getStrategy s = STRATEGY_REDIS ∨ getStrategy s = STRATEGY_MEMCACHED
    ∨ getStrategy s = STRATEGY_FILE →
  k ≠ "" →
  push now (JStr k) v overwrite ttl s = push later (JStr k) v overwrite ttl s
  ∧ pull now (JStr k) quiet s = pull later (JStr k) quiet s
  ∧ has now (JStr k) s = has later (JStr k) s
  ∧ (getStrategy s = STRATEGY_FILE →
     push now (JStr k) v overwrite ttl s = push later (JStr k) v overwrite ttl' s).
Proof.
  intros Hs Hk. pose proof (remote_strategy s Hs) as Hremote.
  unfold push, pull, has. rewrite (invalid_key_string _ Hk), (createKey_string _ _ Hk).
  cbv zeta. rewrite createKey_hashed.
  destruct (init s) as [s0|] eqn:Hinit.
  - destruct (prepared_remote s Hremote (mk_is_Some _ _ Hinit))
      as (Hprepared & Hinit' & Hstrategy & _).
    rewrite createKey_hashed in Hinit'. rewrite Hinit', Hstrategy.
    unfold STRATEGY_SHARED, STRATEGY_REDIS, STRATEGY_MEMCACHED, STRATEGY_SQLITE3,
      STRATEGY_FILE in *.
    destruct Hs as [-> | [-> | ->]]; simpl; done.
  - by rewrite (init_throws _ s Hinit).
Qed.

End OtherMethods.

(** [invalidate()] and [invalidate(true)] on the storage with the keys
    ['b'] and ['1']. *)
Lemma invalidate_empties_the_memory_example :
  (∃ s', invalidate 0 false two_keys = Some (Settled (Resolved tt), s')
     ∧ (∀ ns h, element_at (memory s') ns h
                = if false || bool_decide (ns = namespace_hash two_keys) then None
                  else element_at (memory two_keys) ns h)
     ∧ (has 3000 (JStr "b") s').1 = Resolved false
     ∧ (pull 3000 (JStr "b") false s').1 = Rejected (Message "No such element found."))
  ∧ (∃ s', invalidate 0 true two_keys = Some (Settled (Resolved tt), s')
       ∧ (∀ ns h, element_at (memory s') ns h
                  = if true || bool_decide (ns = namespace_hash two_keys) then None
                    else element_at (memory two_keys) ns h)
       ∧ (has 3000 (JStr "b") s').1 = Rejected TypeError
       ∧ (pull 3000 (JStr "b") false s').1 = Rejected TypeError).
Proof.
  split.
  - apply (invalidate_empties_the_memory 0 false 3000 "b" false two_keys); [reflexivity|done].
  - apply (invalidate_empties_the_memory 0 true 3000 "b" false two_keys); [reflexivity|done].
Defined.

(** An instance set to Redis that was never connected. *)
Lemma methods_reject_when_init_throws_example :
  let s := fresh (JStr "redis") ([] : list string) in
  let message := "An error occurred while initialising the storage." in
  let s' := set_namaspaceHash (Some (namespace_hash s)) s in
  push 1000 (JStr "k") (JStr "v") true None s = reject message s'
  ∧ pull 1000 (JStr "k") true s = reject message s'
  ∧ has 1000 (JStr "k") s = reject message s'
  ∧ increment (JStr "k") None s = reject message s'
  ∧ remove (JStr "k") s = reject message s'
  ∧ invalidate 0 true s = Some (Settled (Rejected (Message message)), s')
  ∧ runSQLite3GarbageCollector 1000 s = reject message s
  ∧ ext s' = ext s.
Proof.
  apply (methods_reject_when_init_throws 1000 "k" (JStr "v") true true true None None 0%nat
           (fresh (JStr "redis") ([] : list string))).
  - reflexivity.
  - done.
  - done.
Defined.

(** A number, which the JSON of the examples does not serialise, pushed
    to files. *)
Lemma push_rejects_unserialisable_value_first_example :
  let s := connected (JStr "file") in
  push 1000 (JStr "k") (JNum 1) true None s
  = (Rejected (Message "Unable to serialise the given value as JSON string."),
     set_namaspaceHash (Some (namespace_hash s)) s).
Proof.
  apply (push_rejects_unserialisable_value_first 1000 "k" (JNum 1) true None
           (connected (JStr "file"))).
  - reflexivity.
  - done.
  - vm_compute. by eexists.
  - right. right. reflexivity.
Defined.


(** [invalidate()] on a Redis that holds no key. *)
Lemma redis_invalidate_without_keys_never_settles_example :
  let s := connected (JStr "redis") in
  invalidate 0 false s
  = Some (Pending, set_ext ["redis.keys tiny-cacher:*:*"]
                     (set_namaspaceHash (Some (namespace_hash s)) s)).
Proof.
  apply (redis_invalidate_without_keys_never_settles 0 false (connected (JStr "redis"))
           ["redis.keys tiny-cacher:*:*"]).
  - reflexivity.
  - reflexivity.
  - reflexivity.
Defined.

(** [push], [pull] and [has] on files, at two times and with two TTL. *)
Lemma remote_strategies_ignore_the_clock_example :
  let s := connected (JStr "file") in
  push 1000 (JStr "k") (JStr "v") true (Some 60) s
  = push 9000 (JStr "k") (JStr "v") true (Some 60) s
  ∧ pull 1000 (JStr "k") false s = pull 9000 (JStr "k") false s
  ∧ has 1000 (JStr "k") s = has 9000 (JStr "k") s
  ∧ push 1000 (JStr "k") (JStr "v") true (Some 60) s
    = push 9000 (JStr "k") (JStr "v") true None s.
Proof.
  destruct (remote_strategies_ignore_the_clock 1000 9000 "k" (JStr "v") true false (Some 60)
              None (connected (JStr "file")) (or_intror (or_intror eq_refl)) ltac:(done))
    as (Hpush & Hpull & Hhas & Httl).
  exact (conj Hpush (conj Hpull (conj Hhas (Httl eq_refl)))).
Defined.

(** ** Configuration *)

Section StrategyNames.
Context {Ext : Type} `{Collaborators Ext} `{Scans Ext}.

(** ** Strategies *)

Lemma getStrategyName_getStrategy (s : State Ext) :
  getStrategyName s = strategy_name (getStrategy s).
Proof.
  unfold getStrategyName, getStrategy, strategy_name.
  destruct (strategy s) as [| |b|n|name|items|props]; try done.
  unfold case_number, STRATEGY_SHARED, STRATEGY_REDIS, STRATEGY_MEMCACHED,
    STRATEGY_SQLITE3, STRATEGY_FILE.
  destruct (negb (bool_decide (n = 3)) && (0 <? n) && (n <=? 7)) eqn:Hrange.
  - done.
  - repeat case_bool_decide; try done; subst; done.
Qed.

Lemma strategy_of_name (n : Z) :
  In n [1; 2; 4; 5; 6; 7] →
  strategy_of_input (JStr (strategy_name n)) = n ∧ strategy_of_input (JNum n) = n.
Proof.
  simpl. intros [<-|[<-|[<-|[<-|[<-|[<-|[]]]]]]]; by vm_compute.
Qed.

(** X23.
    The name of the strategy in use selects it again, and so does its
    number; the name is that of the number [getStrategy] answers. *)
Theorem strategy_name_selects_the_strategy (s s' : State Ext) :
  getStrategy (setStrategy (JStr (getStrategyName s)) s') = getStrategy s
  ∧ getStrategyName (setStrategy (JNum (getStrategy s)) s') = getStrategyName s
  ∧ getStrategyName (setStrategy (JStr (getStrategyName s)) s') = getStrategyName s.
Proof.
  destruct (strategy_of_name (getStrategy s) (getStrategy_range s)) as [Hname Hnumber].
  rewrite !getStrategyName_getStrategy, !getStrategy_setStrategy.
  by rewrite Hname, Hnumber.
Qed.

End StrategyNames.

Section SupportedStrategies.
Context {Ext : Type} `{Collaborators Ext} `{Scans Ext}.


End SupportedStrategies.


Section Namespaces.
Context {Ext : Type} `{Collaborators Ext} `{Scans Ext}.

Lemma namespace_hash_consistent (s : State Ext) :
  hash_consistent s → namespace_hash s = namespace_digest (getNamespace s).
Proof.
  intros Hconsistent. rewrite namespace_hash_fields.
  unfold hash_consistent, hash_of_fields, namespace_digest, getNamespace in *.
  destruct (namaspaceHash s) as [h|]; [|done].
  destruct (bool_decide (h = "")) eqn:Hh; [done|].
  apply bool_decide_eq_false in Hh. by destruct Hconsistent.
Qed.

Lemma setNamespace_fields (v : JSValue) (s : State Ext) :
  let name := match v with JStr name => name | _ => "" end in
  strategy (setNamespace v s) = strategy s
  ∧ staticStorage (setNamespace v s) = staticStorage s
  ∧ storage (setNamespace v s) = storage s
  ∧ defaultTTL (setNamespace v s) = defaultTTL s
  ∧ getNamespace (setNamespace v s) = name
  ∧ (hash_consistent s → hash_consistent (setNamespace v s)).
Proof.
  intros name. unfold setNamespace, hash_consistent, getNamespace. fold name.
  destruct s as [? ? ? ? ? [current|] hash ? ? ? ? ? ? ? ?]; simpl.
  - case_bool_decide as Hname; simpl.
    + by subst.
    + repeat split; try done. intros _. by right.
  - repeat split; try done. intros _. by right.
Qed.

Lemma setNamespace_facts (v : JSValue) (s : State Ext) :
  hash_consistent s →
  getStrategy (setNamespace v s) = getStrategy s
  ∧ in_memory (setNamespace v s) = in_memory s
  ∧ memory (setNamespace v s) = memory s
  ∧ getDefaultTTL (setNamespace v s) = getDefaultTTL s
  ∧ namespace_hash (setNamespace v s)
    = namespace_digest (match v with JStr name => name | _ => "" end)
  ∧ hash_consistent (setNamespace v s).
Proof.
  intros Hconsistent.
  destruct (setNamespace_fields v s) as (Hstrategy & Hstatic & Hstorage & Httl & Hname & Hkeeps).
  assert (getStrategy (setNamespace v s) = getStrategy s) as Hsame
    by (unfold getStrategy; by rewrite Hstrategy).
  split; [done|]. split; [unfold in_memory; by rewrite Hsame|].
  split; [unfold memory; by rewrite Hsame, Hstatic, Hstorage|].
  split; [unfold getDefaultTTL; by rewrite Httl|].
  split; [|by apply Hkeeps].
  rewrite namespace_hash_consistent by (by apply Hkeeps). by rewrite Hname.
Qed.

Lemma with_memory_consistent (st : Storage) (s : State Ext) :
  in_memory s = true → hash_consistent s →
  hash_consistent (with_memory st s) ∧ getNamespace (with_memory st s) = getNamespace s.
Proof.
  intros Hs Hconsistent. rewrite with_memory_view by done.
  destruct (view_fields (bool_decide (getStrategy s = STRATEGY_SHARED)) (namespace_hash s) st s)
    as (_ & Hname & Hhash & _).
  unfold hash_consistent, getNamespace. rewrite Hhash, Hname.
  split; [|done]. right. by apply namespace_hash_consistent.
Qed.

(** X25.
    The namespace that was set is the one the methods address, under
    its digest (['*'] for no namespace). *)
Theorem namespace_hash_is_the_digest_of_the_namespace (v key : JSValue) (s : State Ext) :
  hash_consistent s →
  let name := match v with JStr name => name | _ => "" end in
  getNamespace (setNamespace v s) = name
  ∧ key_namespace (createKey key (setNamespace v s)).1 = namespace_digest name
  ∧ key_namespace (createKey key s).1 = namespace_digest (getNamespace s)
  ∧ hash_consistent (setNamespace v s)
  ∧ hash_consistent (createKey key s).2.
Proof.
  intros Hconsistent name.
  destruct (setNamespace_facts v s Hconsistent) as (_ & _ & _ & _ & Hhash & Hkeeps).
  destruct (setNamespace_fields v s) as (_ & _ & _ & _ & Hname & _).
  assert (∀ s0, key_namespace (createKey key s0).1 = namespace_hash s0) as Hkey by done.
  split; [done|]. split; [by rewrite Hkey|].
  split; [rewrite Hkey; by apply namespace_hash_consistent|].
  split; [done|].
  rewrite createKey_hashed. unfold hash_consistent.
  assert (namaspaceHash (set_namaspaceHash (Some (namespace_hash s)) s)
            = Some (namespace_hash s)
          ∧ getNamespace (set_namaspaceHash (Some (namespace_hash s)) s) = getNamespace s)
    as [-> ->] by (by destruct s).
  right. by apply namespace_hash_consistent.
Qed.

(** X26.
    On the Local and Shared strategies namespaces keep their elements
    apart: what is pushed under one namespace does not show under
    another, and is read back when the first namespace is set again. *)
Theorem namespaces_keep_elements_apart (now later : Z) (a b k : string) (v : JSValue)
    (ttl : option Z) (quiet : bool) (s : State Ext) :
  in_memory s = true → hash_consistent s → k ≠ "" → typeof v ≠ TUndefined →
  namespace_digest a ≠ namespace_digest b →
  let pushed := (push now (JStr k) v true ttl (setNamespace (JStr a) s)).2 in
  element_of (setNamespace (JStr b) pushed) k = element_of (setNamespace (JStr b) s) k
  ∧ (pull later (JStr k) quiet (setNamespace (JStr a) (setNamespace (JStr b) pushed))).1
    = Resolved v.
Proof.
  intros Hs Hconsistent Hk Hv Hdigest pushed.
  destruct (setNamespace_facts (JStr a) s Hconsistent)
    as (_ & Hin_a & Hmemory_a & Httl_a & Hhash_a & Hconsistent_a).
  rewrite Hs in Hin_a.
  set (s_a := setNamespace (JStr a) s) in *.
  set (r := storage_push now (namespace_digest a) (md5 k) v true (expiry now ttl s_a)
              (memory s)).
  assert (pushed = with_memory r.2 s_a) as ->.
  { subst pushed. rewrite push_in_memory by done. cbv zeta. cbn [snd].
    by rewrite Hhash_a, Hmemory_a. }
  destruct (with_memory_facts r.2 s_a Hin_a) as (_ & Hin & _ & Hmemory & _).
  destruct (with_memory_consistent r.2 s_a Hin_a Hconsistent_a) as [Hconsistent' _].
  destruct (setNamespace_facts (JStr b) (with_memory r.2 s_a) Hconsistent')
    as (_ & Hin_b & Hmemory_b & _ & Hhash_b & Hconsistent_b).
  rewrite Hin in Hin_b. rewrite Hmemory in Hmemory_b.
  destruct (setNamespace_facts (JStr b) s Hconsistent) as (_ & _ & Hmemory_b' & _ & Hhash_b' & _).
  destruct (setNamespace_facts (JStr a) _ Hconsistent_b)
    as (_ & Hin_ab & Hmemory_ab & _ & Hhash_ab & _).
  rewrite Hin_b in Hin_ab. rewrite Hmemory_b in Hmemory_ab.
  split.
  - unfold element_of. rewrite Hhash_b, Hmemory_b, Hhash_b', Hmemory_b'.
    subst r. apply storage_push_other. naive_solver.
  - assert (expiry now ttl s_a ≠ ExpUndefined) as Hexpiry.
    { unfold expiry. by destruct (_ <=? 0). }
    apply (read_element later k quiet _ (mkEntry v (expiry now ttl s_a))); try done.
    unfold element_of. rewrite Hhash_ab, Hmemory_ab.
    destruct (storage_push_overwrite_element now (namespace_digest a) (md5 k) v
                (expiry now ttl s_a) (memory s) (namespace_digest a) (md5 k))
      as [_ Helement].
    fold r in Helement. rewrite Helement. by rewrite decide_True.
Qed.

(** ** The default TTL *)



End Namespaces.

(** The namespace ['users'] set on a new instance. *)
Lemma namespace_hash_is_the_digest_of_the_namespace_example :
  let s := fresh JUndefined ([] : list string) in
  getNamespace (setNamespace (JStr "users") s) = "users"
  ∧ key_namespace (createKey (JStr "k") (setNamespace (JStr "users") s)).1 = "#users"
  ∧ key_namespace (createKey (JStr "k") s).1 = "*"
  ∧ hash_consistent (setNamespace (JStr "users") s)
  ∧ hash_consistent (createKey (JStr "k") s).2.
Proof.
  exact (namespace_hash_is_the_digest_of_the_namespace (JStr "users") (JStr "k")
           (fresh JUndefined ([] : list string)) I).
Defined.

(** A key pushed under the namespace ['a'], looked for under ['b'], and
    read under ['a'] again. *)
Lemma namespaces_keep_elements_apart_example :
  let s := fresh JUndefined ([] : list string) in
  let pushed := (push 1000 (JStr "k") (JStr "v") true None (setNamespace (JStr "a") s)).2 in
  element_of (setNamespace (JStr "b") pushed) "k" = None
  ∧ (pull 2000 (JStr "k") false (setNamespace (JStr "a") (setNamespace (JStr "b") pushed))).1
    = Resolved (JStr "v").
Proof.
  apply (namespaces_keep_elements_apart 1000 2000 "a" "b" "k" (JStr "v") None false
           (fresh JUndefined ([] : list string))).
  - reflexivity.
  - exact I.
  - done.
  - done.
  - done.
Defined.


(** ** Collectors and reads *)

Section Collectors.
Context {Ext : Type} `{Collaborators Ext} `{Scans Ext}.

Lemma sweep_namespaces (now : Z) (st : Storage) (ns : string) :
  is_Some (sweep now st !! ns) ↔ is_Some (st !! ns).
Proof. unfold sweep. rewrite lookup_fmap. apply fmap_is_Some. Qed.

Lemma survivor_survivor (earlier later : Z) (element : option Entry) :
  earlier ≤ later → survivor later (survivor earlier element) = survivor later element.
Proof.
  intros Hle. destruct element as [[v [| |t]]|]; try done. simpl.
  case_bool_decide as Hearlier; simpl; [|done].
  rewrite bool_decide_eq_true_2 by lia. done.
Qed.

Lemma sweep_sweep (earlier later : Z) (st : Storage) :
  earlier ≤ later → sweep later (sweep earlier st) = sweep later st.
Proof.
  intros Hle. apply storage_eq.
  - intros ns. by rewrite !sweep_namespaces.
  - intros ns k. rewrite !element_at_sweep. by apply survivor_survivor.
Qed.

(** X28.
    A sweep makes the earlier ones superfluous: after it, an earlier
    sweep would have changed nothing, and a second one changes nothing;
    each collector leaves the storage of the other alone. *)
Theorem later_sweep_subsumes_earlier (earlier later : Z) (s : State Ext) :
  earlier ≤ later →
  runGarbageCollector later (runGarbageCollector earlier s) = runGarbageCollector later s
  ∧ Static.runGlobalGarbageCollector later (Static.runGlobalGarbageCollector earlier s)
    = Static.runGlobalGarbageCollector later s
  ∧ staticStorage (runGarbageCollector later s) = staticStorage s
  ∧ storage (Static.runGlobalGarbageCollector later s) = storage s.
Proof.
  intros Hle. unfold runGarbageCollector, Static.runGlobalGarbageCollector.
  destruct s as [shared ? ? ? ? ? ? ? [st|] ? ? ? ? ? ?]; simpl;
    rewrite ?sweep_sweep by done; done.
Qed.



End Collectors.

(** Two sweeps of the storage with the keys ['b'] and ['1']. *)
Lemma later_sweep_subsumes_earlier_example :
  runGarbageCollector 9000 (runGarbageCollector 3000 two_keys)
  = runGarbageCollector 9000 two_keys
  ∧ Static.runGlobalGarbageCollector 9000 (Static.runGlobalGarbageCollector 3000 two_keys)
    = Static.runGlobalGarbageCollector 9000 two_keys
  ∧ staticStorage (runGarbageCollector 9000 two_keys) = staticStorage two_keys
  ∧ storage (Static.runGlobalGarbageCollector 9000 two_keys) = storage two_keys.
Proof.
  apply (later_sweep_subsumes_earlier 3000 9000 two_keys). done.
Defined.


(** ** Connections *)

Section ClosedConnections.
Context {Ext : Type} `{Collaborators Ext} `{Closers Ext}.


End ClosedConnections.
